(** * The storage gateway of the loan-brokerage service

    A shallow embedding of [server/db-storage.ts] (class [DatabaseStorage])
    and the properties of its operations: credential handling, not-found
    signalling, partial-merge updates, lead assignment and the default-admin
    bootstrap. *)

From stdpp Require Import base tactics option list gmap strings fin_maps pretty.
From Stdlib Require Import ZArith Lia.

Local Open Scope Z_scope.
Local Open Scope string_scope.
Local Open Scope list_scope.

(** ** JavaScript values and objects *)

(** The column values the gateway handles.  A [Date] is its epoch
    millisecond count. *)
Inductive Value : Type :=
  | VNull
  | VBool (b : bool)
  | VNum (n : Z)
  | VStr (s : string)
  | VDate (t : Z).

#[global] Instance Value_eq_dec : EqDecision Value.
Proof. solve_decision. Defined.

(** A row, an insert record and a [Partial<...>] record are all plain
    objects: finite maps from property names to values.  A property that is
    absent reads as [undefined]; a property holding [undefined] behaves like
    an absent one everywhere in this file, so the two are identified. *)
Abbreviation Row := (gmap string Value).

(** [!!v] of JavaScript: [undefined], [null], [false], [0] and the empty
    string are falsy. *)
Definition truthy (v : option Value) : bool :=
  match v with
  | None | Some VNull => false
  | Some (VBool b) => b
  | Some (VNum n) => negb (Z.eqb n 0)
  | Some (VStr s) => negb (String.eqb s "")
  | Some (VDate _) => true
  end.

(** [a || b] where [b] is a value. *)
Definition js_or (a : option Value) (b : Value) : Value :=
  match a with
  | Some v => if truthy a then v else b
  | None => b
  end.

(** ** Errors and outcomes *)

Inductive exn : Type :=
  | Error (message : string)      (* [new Error(message)] *)
  | PersistenceFailure.           (* raised by the persistence engine *)

Inductive result (A : Type) : Type :=
  | Ok (a : A)
  | Err (e : exn).
Arguments Ok {A} a.
Arguments Err {A} e.

(** ** The persistence engine's store *)

Inductive table : Type :=
  users | loanApplications | dsaPartners | leads | contactQueries.

#[global] Instance table_eq_dec : EqDecision table.
Proof. solve_decision. Defined.

Record Db : Type := mkDb {
  t_users : list Row;
  t_loanApplications : list Row;
  t_dsaPartners : list Row;
  t_leads : list Row;
  t_contactQueries : list Row
}.

Definition rows (t : table) (d : Db) : list Row :=
  match t with
  | users => t_users d
  | loanApplications => t_loanApplications d
  | dsaPartners => t_dsaPartners d
  | leads => t_leads d
  | contactQueries => t_contactQueries d
  end.

Definition with_rows (t : table) (l : list Row) (d : Db) : Db :=
  match t with
  | users => mkDb l (t_loanApplications d) (t_dsaPartners d) (t_leads d) (t_contactQueries d)
  | loanApplications => mkDb (t_users d) l (t_dsaPartners d) (t_leads d) (t_contactQueries d)
  | dsaPartners => mkDb (t_users d) (t_loanApplications d) l (t_leads d) (t_contactQueries d)
  | leads => mkDb (t_users d) (t_loanApplications d) (t_dsaPartners d) l (t_contactQueries d)
  | contactQueries => mkDb (t_users d) (t_loanApplications d) (t_dsaPartners d) (t_leads d) l
  end.

Definition empty_db : Db := mkDb [] [] [] [] [].

(** A write statement that the engine has executed. *)
Inductive Stmt : Type :=
  | SqlInsert (t : table) (values : Row)
  | SqlUpdate (t : table) (set : Row) (col : string) (key : string).

(** ** The world an operation runs in *)

(** What the surroundings answer at each moment: the clock reading, the
    identifier the engine generates, the salt bcrypt draws, and whether the
    engine is out of reach.  Nothing is assumed about these answers. *)
Record Env : Type := mkEnv {
  clock : nat → Z;
  uuid : nat → string;
  salt : nat → string;
  outage : nat → bool
}.

Record World : Type := mkWorld {
  tick : nat;               (* moments elapsed *)
  db : Db;                  (* the engine's tables *)
  journal : list Stmt;      (* writes executed, oldest first *)
  console : list string     (* lines written by console.log / console.error *)
}.

Definition bump (w : World) : World :=
  mkWorld (S (tick w)) (db w) (journal w) (console w).

Definition commit (t : table) (l : list Row) (s : Stmt) (w : World) : World :=
  mkWorld (S (tick w)) (with_rows t l (db w)) (journal w ++ [s]) (console w).

(** An operation: from a world to an outcome and the world it leaves.  A
    thrown exception keeps the writes made before it. *)
Definition M (A : Type) : Type := World → result A * World.

#[global] Instance M_ret : MRet M := λ A a w, (Ok a, w).
#[global] Instance M_bind : MBind M := λ A B f m w,
  match m w with
  | (Ok a, w') => f a w'
  | (Err e, w') => (Err e, w')
  end.

Definition throw {A} (e : exn) : M A := λ w, (Err e, w).

(** [try { body } catch (error) { handler(error) }] *)
Definition try_catch {A} (body : M A) (handler : exn → M A) : M A := λ w,
  match body w with
  | (Ok a, w') => (Ok a, w')
  | (Err e, w') => handler e w'
  end.

(** [console.log] and [console.error] both append a line. *)
Definition console_log (line : string) : M unit := λ w,
  (Ok (), mkWorld (tick w) (db w) (journal w) (console w ++ [line])).
Definition console_error (line : string) : M unit := console_log line.

(** ** bcrypt *)

(** The one-way credential hashing library, taken as an interface:
    [bcrypt_digest p rounds s] is the hash of plaintext [p] under salt [s],
    and a plaintext verifies against every hash made from it. *)
Class Bcrypt : Type := {
  bcrypt_digest : string → nat → string → string;
  bcrypt_verify : string → string → bool;
  bcrypt_verify_digest :
    ∀ p rounds s, bcrypt_verify p (bcrypt_digest p rounds s) = true
}.

(** ** The schema's constraints and defaults *)

(** Modelled from the spec: the table declarations of [@shared/schema] are
    not part of the sources.  Section 3 of the specification makes the
    identifier unique in every table and the username and the email unique
    among users. *)
Definition unique_columns (t : table) : list string :=
  match t with
  | users => ["id"; "username"; "email"]
  | _ => ["id"]
  end.

(** The key a row contributes to a unique column; SQL's [NULL] and a missing
    value contribute none. *)
Definition key_of (col : string) (r : Row) : option Value :=
  match r !! col with
  | Some VNull => None
  | o => o
  end.

Definition keys (col : string) (l : list Row) : list Value :=
  omap (key_of col) l.

(** Modelled from the spec: the constraint check of the engine, absent from
    the sources.  A write that leaves the keys of a unique column as they
    were is accepted; one that changes them must leave them distinct. *)
Definition accepts (t : table) (old new : list Row) : Prop :=
  Forall (λ c, keys c new = keys c old ∨ NoDup (keys c new)) (unique_columns t).

#[global] Instance accepts_dec t old new : Decision (accepts t old new).
Proof. unfold accepts. apply _. Defined.

(** [eq(table.col, key)] *)
Definition where_eq (col key : string) (r : Row) : Prop :=
  r !! col = Some (VStr key).

#[global] Instance where_eq_dec col key r : Decision (where_eq col key r).
Proof. unfold where_eq. apply _. Defined.

(** [.limit(n)], or no limit. *)
Definition limit_rows (limit : option nat) (l : list Row) : list Row :=
  match limit with
  | Some n => take n l
  | None => l
  end.

Section Gateway.

Context `{Bcrypt} (env : Env).

(** Modelled from the spec: the columns the engine fills in when an insert
    leaves them out, from the missing table declarations.  Every entity gets
    its identifier at creation; every entity has an update timestamp, and
    all but the contact query a creation timestamp. *)
Definition column_defaults (t : table) (n : nat) : Row :=
  match t with
  | contactQueries =>
      {[ "id" := VStr (uuid env n); "updatedAt" := VDate (clock env n) ]}
  | _ =>
      {[ "id" := VStr (uuid env n); "createdAt" := VDate (clock env n);
         "updatedAt" := VDate (clock env n) ]}
  end.

(** ** The persistence engine *)

(** Modelled from the spec: the engine behind [./db], by the capabilities
    section 6 of the specification requires of it.  Each call takes one
    moment; it fails when the engine is out of reach at that moment, or when
    the write breaks a constraint, and then changes nothing. *)

(** [db.select().from(t).where(eq(t.col, key))], with an optional limit. *)
Definition db_select (t : table) (col key : string) (limit : option nat)
  : M (list Row) := λ w,
  if outage env (tick w) then (Err PersistenceFailure, bump w)
  else (Ok (limit_rows limit (filter (where_eq col key) (rows t (db w)))), bump w).

(** [db.select().from(t)] *)
Definition db_select_all (t : table) : M (list Row) := λ w,
  if outage env (tick w) then (Err PersistenceFailure, bump w)
  else (Ok (rows t (db w)), bump w).

(** [db.insert(t).values(values).returning()] *)
Definition db_insert (t : table) (values : Row) : M (list Row) := λ w,
  if outage env (tick w) then (Err PersistenceFailure, bump w)
  else
    let row := values ∪ column_defaults t (tick w) in
    let new := rows t (db w) ++ [row] in
    if decide (accepts t (rows t (db w)) new)
    then (Ok [row], commit t new (SqlInsert t values) w)
    else (Err PersistenceFailure, bump w).

(** The row an update leaves: the set record over the old row. *)
Definition merge (set : Row) (r : Row) : Row := set ∪ r.

Definition update_row (set : Row) (col key : string) (r : Row) : Row :=
  if decide (where_eq col key r) then merge set r else r.

(** [db.update(t).set(set).where(eq(t.col, key)).returning()].  The place an
    updated row takes among the rows of its table is not given by the
    engine's contract; the properties below speak of the rows of a table
    after an update by membership and by number only. *)
Definition db_update (t : table) (set : Row) (col key : string)
  : M (list Row) := λ w,
  if outage env (tick w) then (Err PersistenceFailure, bump w)
  else
    let new := update_row set col key <$> rows t (db w) in
    if decide (accepts t (rows t (db w)) new)
    then (Ok (merge set <$> filter (where_eq col key) (rows t (db w))),
          commit t new (SqlUpdate t set col key) w)
    else (Err PersistenceFailure, bump w).

(** ** The ambient effects of the runtime *)

(** [new Date()] *)
Definition new_Date : M Z := λ w, (Ok (clock env (tick w)), bump w).

(** [bcrypt.hash(data, rounds)]: draws a salt; throws unless [data] is a
    string. *)
Definition bcrypt_hash (data : option Value) (rounds : nat) : M string :=
  match data with
  | Some (VStr p) => λ w, (Ok (bcrypt_digest p rounds (salt env (tick w))), bump w)
  | _ => throw (Error "data and salt arguments required")
  end.

(** [bcrypt.compare(data, hash)]: throws unless [hash] is a string. *)
Definition bcrypt_compare (data : string) (hash : option Value) : M bool :=
  match hash with
  | Some (VStr h) => mret (bcrypt_verify data h)
  | _ => throw (Error "data and hash arguments required")
  end.

(** ** class DatabaseStorage *)

Definition initializeDefaultUsers : M unit :=
  try_catch
    (existingAdmin ← db_select users "username" "admin" (Some 1%nat);
     if decide (length existingAdmin = 0%nat) then
       hashedPassword ← bcrypt_hash (Some (VStr "admin123")) 10;
       _ ← db_insert users
             {[ "username" := VStr "admin";
                "email" := VStr "admin@jsmf.com";
                "password" := VStr hashedPassword;
                "role" := VStr "admin";
                "fullName" := VStr "System Administrator";
                "mobileNumber" := VStr "+91 91626 207918";
                "city" := VStr "Bhopal";
                "isActive" := VBool true ]};
       console_log "Default admin user created"
     else mret ())
    (λ error, console_error "Error initializing default users:").

(** The constructor calls the asynchronous bootstrap without awaiting it:
    it returns at once and touches nothing, and what it leaves behind is
    the pending bootstrap, whose check and insert run later. *)
Definition constructor : M (M unit) := mret initializeDefaultUsers.

(** *** User operations *)

Definition getUser (id : string) : M (option Row) :=
  result ← db_select users "id" id (Some 1%nat);
  mret (head result).

Definition getUserByUsername (username : string) : M (option Row) :=
  result ← db_select users "username" username (Some 1%nat);
  mret (head result).

Definition getUserByEmail (email : string) : M (option Row) :=
  result ← db_select users "email" email (Some 1%nat);
  mret (head result).

Definition createUser (insertUser : Row) : M (option Row) :=
  hashedPassword ← bcrypt_hash (insertUser !! "password") 10;
  result ← db_insert users
             (<["isActive" := VBool true]>
               (<["role" := js_or (insertUser !! "role") (VStr "user")]>
                 (<["password" := VStr hashedPassword]> insertUser)));
  mret (head result).

Definition updateUser (id : string) (updates : Row) : M Row :=
  now ← new_Date;
  result ← db_update users (<["updatedAt" := VDate now]> updates) "id" id;
  match result with
  | [] => throw (Error "User not found")
  | r :: _ => mret r
  end.

Definition authenticateUser (username password : string) : M (option Row) :=
  user ← getUserByUsername username;
  match user with
  | None => mret None
  | Some u =>
      isValid ← bcrypt_compare password (u !! "password");
      mret (if isValid : bool then Some u else None)
  end.

(** *** Loan application operations *)

Definition createLoanApplication (application : Row) : M (option Row) :=
  result ← db_insert loanApplications (<["status" := VStr "pending"]> application);
  mret (head result).

Definition getLoanApplications : M (list Row) := db_select_all loanApplications.

Definition getLoanApplicationsByUser (userId : string) : M (list Row) :=
  db_select loanApplications "userId" userId None.

Definition getLoanApplicationsByDsa (dsaId : string) : M (list Row) :=
  db_select loanApplications "assignedDsaId" dsaId None.

Definition updateLoanApplication (id : string) (updates : Row) : M Row :=
  now ← new_Date;
  result ← db_update loanApplications (<["updatedAt" := VDate now]> updates) "id" id;
  match result with
  | [] => throw (Error "Application not found")
  | r :: _ => mret r
  end.

(** *** DSA partner operations *)

Definition createDsaPartner (partner : Row) : M (option Row) :=
  result ← db_insert dsaPartners (<["kycStatus" := VStr "pending"]> partner);
  mret (head result).

Definition getDsaPartners : M (list Row) := db_select_all dsaPartners.

Definition getDsaPartnerByUserId (userId : string) : M (option Row) :=
  result ← db_select dsaPartners "userId" userId (Some 1%nat);
  mret (head result).

Definition updateDsaPartner (id : string) (updates : Row) : M Row :=
  now ← new_Date;
  result ← db_update dsaPartners (<["updatedAt" := VDate now]> updates) "id" id;
  match result with
  | [] => throw (Error "DSA partner not found")
  | r :: _ => mret r
  end.

(** *** Lead operations *)

Definition createLead (lead : Row) : M (option Row) :=
  result ← db_insert leads
             (<["status" := VStr "new"]>
               (<["source" := js_or (lead !! "source") (VStr "website")]> lead));
  mret (head result).

Definition getLeads : M (list Row) := db_select_all leads.

Definition getLeadsByDsa (dsaId : string) : M (list Row) :=
  db_select leads "assignedDsaId" dsaId None.

Definition assignLeadToDsa (leadId dsaId : string) : M Row :=
  assignedAt ← new_Date;
  updatedAt ← new_Date;
  result ← db_update leads
             {[ "assignedDsaId" := VStr dsaId;
                "assignedAt" := VDate assignedAt;
                "updatedAt" := VDate updatedAt ]} "id" leadId;
  match result with
  | [] => throw (Error "Lead not found")
  | r :: _ => mret r
  end.

Definition updateLead (id : string) (updates : Row) : M Row :=
  now ← new_Date;
  result ← db_update leads (<["updatedAt" := VDate now]> updates) "id" id;
  match result with
  | [] => throw (Error "Lead not found")
  | r :: _ => mret r
  end.

(** *** Contact query operations *)

Definition createContactQuery (query : Row) : M (option Row) :=
  result ← db_insert contactQueries (<["status" := VStr "new"]> query);
  mret (head result).

Definition getContactQueries : M (list Row) := db_select_all contactQueries.

Definition updateContactQuery (id : string) (updates : Row) : M Row :=
  result ← db_update contactQueries updates "id" id;
  match result with
  | [] => throw (Error "Contact query not found")
  | r :: _ => mret r
  end.

End Gateway.

(** ** Notions used to state the properties *)

(** The rows of table [t] whose identifier is [id]. *)
Definition found (t : table) (id : string) (d : Db) : list Row :=
  filter (where_eq "id" id) (rows t d).

(** An operation is performed when the engine raises no failure of its own
    during it. *)
Definition performed {A} (o : result A * World) : Prop :=
  o.1 ≠ Err PersistenceFailure.

(** The write an update operation hands to the engine, and what it does
    with the answer: the part all the update operations have in common. *)
Definition checked_update (env : Env) (t : table) (set : Row) (key msg : string)
  : M Row :=
  result ← db_update env t set "id" key;
  match result with
  | [] => throw (Error msg)
  | r :: _ => mret r
  end.

(** The partial-merge update operations that refresh the update timestamp. *)
Inductive entity : Type := EUser | ELoanApplication | EDsaPartner | ELead.

Definition entity_table (e : entity) : table :=
  match e with
  | EUser => users
  | ELoanApplication => loanApplications
  | EDsaPartner => dsaPartners
  | ELead => leads
  end.

Definition update_of (env : Env) (e : entity) : string → Row → M Row :=
  match e with
  | EUser => updateUser env
  | ELoanApplication => updateLoanApplication env
  | EDsaPartner => updateDsaPartner env
  | ELead => updateLead env
  end.

(** The six operations that mutate one entity chosen by its identifier. *)
Inductive mutation : Type :=
  | MUpdate (e : entity) (updates : Row)
  | MUpdateContactQuery (updates : Row)
  | MAssignLeadToDsa (dsaId : string).

Definition mutation_table (m : mutation) : table :=
  match m with
  | MUpdate e _ => entity_table e
  | MUpdateContactQuery _ => contactQueries
  | MAssignLeadToDsa _ => leads
  end.

Definition run_mutation (env : Env) (m : mutation) (id : string) : M Row :=
  match m with
  | MUpdate e updates => update_of env e id updates
  | MUpdateContactQuery updates => updateContactQuery env id updates
  | MAssignLeadToDsa dsaId => assignLeadToDsa env id dsaId
  end.

(** The message of the error each of them throws on an empty answer. *)
Definition not_found_message (m : mutation) : string :=
  match m with
  | MUpdate EUser _ => "User not found"
  | MUpdate ELoanApplication _ => "Application not found"
  | MUpdate EDsaPartner _ => "DSA partner not found"
  | MUpdate ELead _ => "Lead not found"
  | MUpdateContactQuery _ => "Contact query not found"
  | MAssignLeadToDsa _ => "Lead not found"
  end.

(** The set record a mutation hands to the engine when it starts in world
    [w], and the world in which the engine call is made: the update
    operations read the clock once, the assignment twice, the contact-query
    update not at all. *)
Definition mutation_set (env : Env) (m : mutation) (w : World) : Row :=
  match m with
  | MUpdate _ updates => <["updatedAt" := VDate (clock env (tick w))]> updates
  | MUpdateContactQuery updates => updates
  | MAssignLeadToDsa dsaId =>
      {[ "assignedDsaId" := VStr dsaId;
         "assignedAt" := VDate (clock env (tick w));
         "updatedAt" := VDate (clock env (S (tick w))) ]}
  end.

Definition mutation_world (m : mutation) (w : World) : World :=
  match m with
  | MUpdate _ _ => bump w
  | MUpdateContactQuery _ => w
  | MAssignLeadToDsa _ => bump (bump w)
  end.

(** The users called "admin". *)
Definition admins (d : Db) : list Row :=
  filter (where_eq "username" "admin") (rows users d).

(** Running an operation [n] times in a row, caring only for the world. *)
Fixpoint repeat_run {A} (m : M A) (n : nat) (w : World) : World :=
  match n with
  | O => w
  | S k => repeat_run m k (m w).2
  end.

(** The first user of that name, as [getUserByUsername] finds it. *)
Definition user_named (name : string) (d : Db) : option Row :=
  head (filter (where_eq "username" name) (rows users d)).

(** A store that satisfies the uniqueness constraints of the schema. *)
Definition consistent (d : Db) : Prop :=
  ∀ t c, c ∈ unique_columns t → NoDup (keys c (rows t d)).

(** The bootstrap failures the console has recorded. *)
Definition bootstrap_failures (w : World) : nat :=
  length (filter (λ line, line = "Error initializing default users:") (console w)).

(** The three ways a bootstrap can go: it fails and logs the failure; it
    finds an admin and does nothing; it finds none and inserts one. *)
Inductive bootstrap_step (w w' : World) : Prop :=
  | bootstrap_failed :
      db w' = db w →
      bootstrap_failures w' = S (bootstrap_failures w) →
      bootstrap_step w w'
  | bootstrap_skipped :
      db w' = db w →
      bootstrap_failures w' = bootstrap_failures w →
      admins (db w) ≠ [] →
      bootstrap_step w w'
  | bootstrap_created r :
      admins (db w) = [] →
      where_eq "username" "admin" r →
      db w' = with_rows users (rows users (db w) ++ [r]) (db w) →
      bootstrap_failures w' = bootstrap_failures w →
      bootstrap_step w w'.

(** An operation that keeps a consistent store consistent. *)
Definition preserves {A} (m : M A) : Prop :=
  ∀ w, consistent (db w) → consistent (db (m w).2).

(** ** Concrete surroundings, to run the operations *)

(** A stand-in for bcrypt: the hash is a prefix, the salt, a separator and
    the plaintext; a plaintext verifies against the strings that end with
    the separator and it.  It is of no use as a hash and serves only to run
    the operations on concrete inputs. *)
Fixpoint ends_with (suffix s : string) : bool :=
  String.eqb suffix s ||
  match s with
  | EmptyString => false
  | String _ s' => ends_with suffix s'
  end.

Definition demo_digest (p : string) (rounds : nat) (s : string) : string :=
  "$2b$" +:+ s +:+ "$" +:+ p.

Definition demo_verify (p h : string) : bool := ends_with ("$" +:+ p) h.

Lemma ends_with_refl s : ends_with s s = true.
Proof. destruct s; unfold ends_with; fold ends_with; by rewrite String.eqb_refl. Qed.

Lemma ends_with_prepend suffix pre s :
  ends_with suffix s = true → ends_with suffix (pre +:+ s) = true.
Proof.
  intros Hs. induction pre as [|a pre IH]; [done|].
  change (String a pre +:+ s) with (String a (pre +:+ s)).
  unfold ends_with; fold ends_with. rewrite IH. apply orb_true_r.
Qed.

Lemma demo_verify_digest p rounds s : demo_verify p (demo_digest p rounds s) = true.
Proof.
  unfold demo_verify, demo_digest.
  do 2 apply ends_with_prepend. apply ends_with_refl.
Qed.

Definition demo_bcrypt : Bcrypt :=
  {| bcrypt_digest := demo_digest;
     bcrypt_verify := demo_verify;
     bcrypt_verify_digest := demo_verify_digest |}.

(** The engine always in reach, a clock that advances by a millisecond at
    every moment, identifiers numbered by the moment. *)
Definition env0 : Env :=
  {| clock := λ n, 1000 + Z.of_nat n;
     uuid := λ n, "id-" +:+ pretty n;
     salt := λ _, "salt";
     outage := λ _, false |}.

(** The same with a clock that stands still: the moments fall within one
    millisecond. *)
Definition env_same_ms : Env :=
  {| clock := λ _, 1000;
     uuid := λ n, "id-" +:+ pretty n;
     salt := λ _, "salt";
     outage := λ _, false |}.

(** The engine out of reach at every moment. *)
Definition env_down : Env :=
  {| clock := λ n, 1000 + Z.of_nat n;
     uuid := λ n, "id-" +:+ pretty n;
     salt := λ _, "salt";
     outage := λ _, true |}.

Definition world0 : World := mkWorld 0 empty_db [] [].

Definition alice : Row :=
  {[ "username" := VStr "alice"; "email" := VStr "alice@example.com";
     "password" := VStr "secret" ]}.

Definition lead1 : Row :=
  {[ "id" := VStr "lead-1"; "name" := VStr "Ravi"; "source" := VStr "website";
     "status" := VStr "new"; "createdAt" := VDate 900; "updatedAt" := VDate 900 ]}.

Definition lead2 : Row :=
  {[ "id" := VStr "lead-2"; "name" := VStr "Meera"; "source" := VStr "referral";
     "status" := VStr "new"; "createdAt" := VDate 950; "updatedAt" := VDate 950 ]}.

Definition query1 : Row :=
  {[ "id" := VStr "query-1"; "message" := VStr "Call me back";
     "status" := VStr "new"; "updatedAt" := VDate 900 ]}.

Definition stored_alice : Row :=
  {[ "id" := VStr "user-1"; "username" := VStr "alice";
     "email" := VStr "alice@example.com";
     "password" := VStr "$2b$salt$secret"; "role" := VStr "user";
     "isActive" := VBool true; "createdAt" := VDate 900; "updatedAt" := VDate 900 ]}.

(** A store with one user, two leads and one contact query. *)
Definition world1 : World :=
  mkWorld 0 (mkDb [stored_alice] [] [] [lead1; lead2] [query1]) [] [].

(** The store after a first update of the lead "lead-1" at the millisecond
    1000, the lead as that update left it, and the lead a second update
    within the same millisecond returns. *)
Definition world_updated : World :=
  (updateLead env_same_ms "lead-1" {[ "status" := VStr "contacted" ]} world1).2.

Definition contacted_lead : Row :=
  {[ "id" := VStr "lead-1"; "name" := VStr "Ravi"; "source" := VStr "website";
     "status" := VStr "contacted"; "createdAt" := VDate 900;
     "updatedAt" := VDate 1000 ]}.

Definition qualified_lead : Row :=
  {[ "id" := VStr "lead-1"; "name" := VStr "Ravi"; "source" := VStr "website";
     "status" := VStr "qualified"; "createdAt" := VDate 900;
     "updatedAt" := VDate 1000 ]}.

(** A creation input whose source is the empty string, and the lead
    createLead returns for it in the empty store. *)
Definition lead_without_source : Row :=
  {[ "name" := VStr "Ravi"; "source" := VStr "" ]}.

Definition lead_from_website : Row :=
  {[ "id" := VStr "id-0"; "name" := VStr "Ravi"; "source" := VStr "website";
     "status" := VStr "new"; "createdAt" := VDate 1000; "updatedAt" := VDate 1000 ]}.


(** ** The operations, grouped by kind *)

(** The lookups of one row by a key. *)
Inductive lookup : Type :=
  | LUser (id : string)
  | LUserByUsername (username : string)
  | LUserByEmail (email : string)
  | LDsaPartnerByUserId (userId : string).

Definition lookup_table (l : lookup) : table :=
  match l with
  | LDsaPartnerByUserId _ => dsaPartners
  | _ => users
  end.

Definition lookup_column (l : lookup) : string :=
  match l with
  | LUser _ => "id"
  | LUserByUsername _ => "username"
  | LUserByEmail _ => "email"
  | LDsaPartnerByUserId _ => "userId"
  end.

Definition lookup_key (l : lookup) : string :=
  match l with
  | LUser k | LUserByUsername k | LUserByEmail k | LDsaPartnerByUserId k => k
  end.

Definition run_lookup (env : Env) (l : lookup) : M (option Row) :=
  match l with
  | LUser id => getUser env id
  | LUserByUsername username => getUserByUsername env username
  | LUserByEmail email => getUserByEmail env email
  | LDsaPartnerByUserId userId => getDsaPartnerByUserId env userId
  end.

(** The reads that answer with a sequence of rows. *)
Inductive listing : Type :=
  | QLoanApplications
  | QLoanApplicationsByUser (userId : string)
  | QLoanApplicationsByDsa (dsaId : string)
  | QDsaPartners
  | QLeads
  | QLeadsByDsa (dsaId : string)
  | QContactQueries.

Definition listing_table (q : listing) : table :=
  match q with
  | QLoanApplications | QLoanApplicationsByUser _ | QLoanApplicationsByDsa _ =>
      loanApplications
  | QDsaPartners => dsaPartners
  | QLeads | QLeadsByDsa _ => leads
  | QContactQueries => contactQueries
  end.

Definition run_listing (env : Env) (q : listing) : M (list Row) :=
  match q with
  | QLoanApplications => getLoanApplications env
  | QLoanApplicationsByUser userId => getLoanApplicationsByUser env userId
  | QLoanApplicationsByDsa dsaId => getLoanApplicationsByDsa env dsaId
  | QDsaPartners => getDsaPartners env
  | QLeads => getLeads env
  | QLeadsByDsa dsaId => getLeadsByDsa env dsaId
  | QContactQueries => getContactQueries env
  end.

(** The rows a listing asks for. *)
Definition selected (q : listing) (r : Row) : Prop :=
  match q with
  | QLoanApplicationsByUser userId => where_eq "userId" userId r
  | QLoanApplicationsByDsa dsaId | QLeadsByDsa dsaId =>
      where_eq "assignedDsaId" dsaId r
  | _ => True
  end.

#[global] Instance selected_dec q r : Decision (selected q r).
Proof. destruct q; apply _. Defined.

(** The five creations. *)
Inductive creation : Type :=
  CUser | CLoanApplication | CDsaPartner | CLead | CContactQuery.

Definition creation_table (c : creation) : table :=
  match c with
  | CUser => users
  | CLoanApplication => loanApplications
  | CDsaPartner => dsaPartners
  | CLead => leads
  | CContactQuery => contactQueries
  end.

Definition run_creation `{Bcrypt} (env : Env) (c : creation) : Row → M (option Row) :=
  match c with
  | CUser => createUser env
  | CLoanApplication => createLoanApplication env
  | CDsaPartner => createDsaPartner env
  | CLead => createLead env
  | CContactQuery => createContactQuery env
  end.

(** The columns a creation writes itself, whatever the input holds. *)
Definition forced_columns (c : creation) : list string :=
  match c with
  | CUser => ["password"; "role"; "isActive"]
  | CLoanApplication => ["status"]
  | CDsaPartner => ["kycStatus"]
  | CLead => ["source"; "status"]
  | CContactQuery => ["status"]
  end.

(** Two worlds with the same store, journal and console. *)
Definition unchanged (w w' : World) : Prop :=
  db w' = db w ∧ journal w' = journal w ∧ console w' = console w.

(** Sample inputs. *)
Definition loan_input : Row :=
  {[ "userId" := VStr "user-1"; "amount" := VNum 500000; "status" := VStr "approved" ]}.

Definition assigned_lead1 : Row :=
  {[ "id" := VStr "lead-1"; "name" := VStr "Ravi"; "source" := VStr "website";
     "status" := VStr "new"; "createdAt" := VDate 900;
     "assignedDsaId" := VStr "partner-42"; "assignedAt" := VDate 1000;
     "updatedAt" := VDate 1001 ]}.

(** The record the bootstrap inserts, given the hash of the default
    password. *)
Definition default_admin (hashedPassword : string) : Row :=
  {[ "username" := VStr "admin";
     "email" := VStr "admin@jsmf.com";
     "password" := VStr hashedPassword;
     "role" := VStr "admin";
     "fullName" := VStr "System Administrator";
     "mobileNumber" := VStr "+91 91626 207918";
     "city" := VStr "Bhopal";
     "isActive" := VBool true ]}.

(** More sample data: the sample store with "lead-1" assigned, a loan
    application as created in the sample store, a user input with an empty
    role and the activity flag off, the user created from it in the empty
    store, and the empty store after its first bootstrap. *)
Definition world2 : World :=
  mkWorld 0 (mkDb [stored_alice] [] [] [assigned_lead1; lead2] [query1]) [] [].

Definition created_loan : Row :=
  {[ "id" := VStr "id-0"; "userId" := VStr "user-1"; "amount" := VNum 500000;
     "status" := VStr "pending"; "createdAt" := VDate 1000;
     "updatedAt" := VDate 1000 ]}.

Definition bob : Row :=
  {[ "username" := VStr "bob"; "email" := VStr "bob@example.com";
     "password" := VStr "pw"; "role" := VStr ""; "isActive" := VBool false ]}.

Definition stored_bob : Row :=
  {[ "id" := VStr "id-1"; "username" := VStr "bob";
     "email" := VStr "bob@example.com"; "password" := VStr "$2b$salt$pw";
     "role" := VStr "user"; "isActive" := VBool true;
     "createdAt" := VDate 1001; "updatedAt" := VDate 1001 ]}.

Definition world_bootstrapped : World :=
  (@initializeDefaultUsers demo_bcrypt env0 world0).2.

(** A store whose only user is not called "admin" but holds the email of
    the default admin. *)
Definition somebody : Row :=
  {[ "id" := VStr "user-7"; "username" := VStr "somebody";
     "email" := VStr "admin@jsmf.com"; "password" := VStr "$2b$salt$pw";
     "role" := VStr "user"; "isActive" := VBool true;
     "createdAt" := VDate 900; "updatedAt" := VDate 900 ]}.

Definition world_taken : World :=
  mkWorld 0 (mkDb [somebody] [] [] [] []) [] [].

(** Whether an outcome is a failure of the engine, as a test to run. *)
Definition engine_failed {A} (o : result A * World) : bool :=
  match o.1 with
  | Err PersistenceFailure => true
  | _ => false
  end.

(** The row an outcome carries, when it carries one. *)
Definition returned_row (o : result (option Row) * World) : Row :=
  match o.1 with
  | Ok (Some r) => r
  | _ => ∅
  end.

(** Outcomes, statements and worlds can be compared by running. *)
#[global] Instance exn_eq_dec : EqDecision exn.
Proof. solve_decision. Defined.

#[global] Instance result_eq_dec {A} `{EqDecision A} : EqDecision (result A).
Proof. solve_decision. Defined.

#[global] Instance Stmt_eq_dec : EqDecision Stmt.
Proof. solve_decision. Defined.

#[global] Instance Db_eq_dec : EqDecision Db.
Proof. solve_decision. Defined.

#[global] Instance World_eq_dec : EqDecision World.
Proof. solve_decision. Defined.

(** ** Engine facts *)

Section EngineFacts.

Context (env : Env).

Lemma rows_with_rows t l d : rows t (with_rows t l d) = l.
Proof. by destruct t. Qed.

Lemma rows_with_rows_ne t t' l d : t ≠ t' → rows t' (with_rows t l d) = rows t' d.
Proof. by destruct t, t'. Qed.

Lemma with_rows_same t d : with_rows t (rows t d) d = d.
Proof. by destruct t, d. Qed.

Lemma update_row_miss set col key (l : list Row) :
  filter (where_eq col key) l = [] → update_row set col key <$> l = l.
Proof.
  induction l as [|r l IH]; [done|].
  rewrite filter_cons. unfold update_row at 1. cbn [fmap list_fmap].
  destruct (decide (where_eq col key r)); [done|].
  intros Hl. f_equal. by apply IH.
Qed.

(** A write that sets no unique column leaves every key as it was. *)
Lemma keys_update_row set col key c (l : list Row) :
  set !! c = None → keys c (update_row set col key <$> l) = keys c l.
Proof.
  intros Hc. unfold keys. induction l as [|r l IH]; [done|].
  cbn [fmap list_fmap omap list_omap]. fold (omap (key_of c) l).
  fold (omap (key_of c) (update_row set col key <$> l)). rewrite IH.
  replace (key_of c (update_row set col key r)) with (key_of c r); [done|].
  unfold update_row, key_of, merge. destruct (decide _); [|done].
  by rewrite lookup_union_r.
Qed.

Lemma accepts_unchanged t (old new : list Row) :
  (∀ c, c ∈ unique_columns t → keys c new = keys c old) → accepts t old new.
Proof. intros Hk. apply Forall_forall. intros c Hc. left. by apply Hk. Qed.

Lemma accepts_miss t set col key (l : list Row) :
  filter (where_eq col key) l = [] → accepts t l (update_row set col key <$> l).
Proof.
  intros Hl. rewrite (update_row_miss _ _ _ _ Hl).
  by apply accepts_unchanged.
Qed.

(** What the guarded update does, case by case. *)
Lemma checked_update_eq t set key msg w :
  checked_update env t set key msg w =
    if outage env (tick w) then (Err PersistenceFailure, bump w)
    else if decide (accepts t (rows t (db w))
                      (update_row set "id" key <$> rows t (db w)))
    then match found t key (db w) with
         | [] => (Err (Error msg),
                  commit t (update_row set "id" key <$> rows t (db w))
                    (SqlUpdate t set "id" key) w)
         | old :: _ => (Ok (merge set old),
                  commit t (update_row set "id" key <$> rows t (db w))
                    (SqlUpdate t set "id" key) w)
         end
    else (Err PersistenceFailure, bump w).
Proof.
  unfold checked_update, mbind, M_bind, db_update, found.
  destruct (outage env (tick w)); [done|].
  destruct (decide _); [|done].
  by destruct (filter _ _).
Qed.

End EngineFacts.

(** ** The mutation operations *)

Section Mutations.

Context (env : Env).

(** Every mutation is a guarded update of its table. *)
Lemma run_mutation_eq m id w :
  run_mutation env m id w =
    checked_update env (mutation_table m) (mutation_set env m w) id
      (not_found_message m) (mutation_world m w).
Proof. destruct m as [[] updates|updates|dsaId]; reflexivity. Qed.

Lemma update_of_eq e id updates w :
  update_of env e id updates w = run_mutation env (MUpdate e updates) id w.
Proof. reflexivity. Qed.

Lemma mutation_world_db m w : db (mutation_world m w) = db w.
Proof. by destruct m. Qed.

Lemma mutation_world_journal m w : journal (mutation_world m w) = journal w.
Proof. by destruct m. Qed.

(** A performed mutation, case by case on whether its target exists. *)
Lemma run_mutation_performed m id w :
  performed (run_mutation env m id w) →
  let t := mutation_table m in
  let set := mutation_set env m w in
  let w' := commit t (update_row set "id" id <$> rows t (db w))
              (SqlUpdate t set "id" id) (mutation_world m w) in
  run_mutation env m id w =
    match found t id (db w) with
    | [] => (Err (Error (not_found_message m)), w')
    | old :: _ => (Ok (merge set old), w')
    end.
Proof.
  unfold performed. rewrite run_mutation_eq, checked_update_eq.
  rewrite mutation_world_db. cbn zeta.
  destruct (outage env _); [done|].
  destruct (decide _); [|done]. done.
Qed.

(** The engine performs a mutation when it is in reach at the moment of the
    call and the write breaks no constraint. *)
Lemma run_mutation_accepted m id w :
  outage env (tick (mutation_world m w)) = false →
  accepts (mutation_table m) (rows (mutation_table m) (db w))
    (update_row (mutation_set env m w) "id" id <$> rows (mutation_table m) (db w)) →
  performed (run_mutation env m id w).
Proof.
  intros Hup Hacc. unfold performed.
  rewrite run_mutation_eq, checked_update_eq, mutation_world_db, Hup.
  rewrite decide_True by done. by destruct (found _ _ _).
Qed.

(** A mutation whose target does not exist breaks no constraint. *)
Lemma run_mutation_miss m id w :
  outage env (tick (mutation_world m w)) = false →
  found (mutation_table m) id (db w) = [] →
  performed (run_mutation env m id w).
Proof.
  intros Hup Hmiss. apply run_mutation_accepted; [done|].
  by apply accepts_miss.
Qed.

Lemma elem_of_found t id d r : r ∈ found t id d ↔ where_eq "id" id r ∧ r ∈ rows t d.
Proof. apply list_elem_of_filter. Qed.

Lemma found_head t id d old rest :
  found t id d = old :: rest → where_eq "id" id old ∧ old ∈ rows t d.
Proof. intros Hf. apply elem_of_found. rewrite Hf. left. Qed.

Lemma update_row_hit set col key r :
  where_eq col key r → update_row set col key r = merge set r.
Proof. intros Hr. unfold update_row. by rewrite decide_True. Qed.

Lemma update_row_other set col key r :
  ¬ where_eq col key r → update_row set col key r = r.
Proof. intros Hr. unfold update_row. by rewrite decide_False. Qed.

End Mutations.

Section MutationTheorems.

Context (env : Env).

Lemma merge_lookup set (old : Row) k :
  merge set old !! k = match set !! k with Some v => Some v | None => old !! k end.
Proof.
  unfold merge. destruct (set !! k) as [v|] eqn:Hk.
  - by apply lookup_union_Some_l.
  - by rewrite lookup_union_r.
Qed.

Lemma merged_stored t set id d old rest :
  found t id d = old :: rest →
  merge set old ∈ update_row set "id" id <$> rows t d.
Proof.
  intros Hf. apply found_head in Hf as [Hid Hin].
  apply list_elem_of_fmap. exists old. split; [|done].
  by rewrite update_row_hit.
Qed.

(** A performed mutation of an entity that exists returns the merged row,
    which is then stored, and journals its one statement. *)
Lemma run_mutation_hit (m : mutation) (id : string) (w : World) old rest :
  performed (run_mutation env m id w) →
  found (mutation_table m) id (db w) = old :: rest →
  ∃ w', run_mutation env m id w = (Ok (merge (mutation_set env m w) old), w')
      ∧ merge (mutation_set env m w) old ∈ rows (mutation_table m) (db w')
      ∧ journal w' = journal w ++
          [SqlUpdate (mutation_table m) (mutation_set env m w) "id" id].
Proof.
  intros Hp Hf. rewrite (run_mutation_performed env m id w Hp), Hf.
  eexists. split; [done|].
  cbn [db commit journal]. rewrite rows_with_rows, mutation_world_journal.
  split; [|done]. by eapply merged_stored.
Qed.


(** C6, amended. An update of a user, loan application, partner or lead
    that exists, when the engine performs it, changes only the fields the
    partial record supplies and the update timestamp: every other field
    keeps its value.  The update timestamp of the result is the clock
    reading taken at the mutation, so it is later than the previous one
    exactly when that reading is. *)
Theorem update_changes_supplied_fields_only
    (e : entity) (id : string) (updates : Row) (w : World) (old : Row) (rest : list Row) :
  found (entity_table e) id (db w) = old :: rest →
  performed (update_of env e id updates w) →
  ∃ r w', update_of env e id updates w = (Ok r, w')
    ∧ r ∈ rows (entity_table e) (db w')
    ∧ (∀ k, k ≠ "updatedAt" → updates !! k = None → r !! k = old !! k)
    ∧ (∀ k v, k ≠ "updatedAt" → updates !! k = Some v → r !! k = Some v)
    ∧ r !! "updatedAt" = Some (VDate (clock env (tick w)))
    ∧ (∀ t0 t1, old !! "updatedAt" = Some (VDate t0) →
         r !! "updatedAt" = Some (VDate t1) →
         (t0 < t1 ↔ t0 < clock env (tick w))).
Proof.
  intros Hf Hp. rewrite update_of_eq in Hp |- *.
  destruct (run_mutation_hit _ _ _ _ _ Hp Hf) as (w' & Hrun & Hin & _).
  exists (merge (mutation_set env (MUpdate e updates) w) old), w'.
  cbn [mutation_set mutation_table] in *.
  assert (Hts : merge (<["updatedAt" := VDate (clock env (tick w))]> updates) old
                  !! "updatedAt" = Some (VDate (clock env (tick w)))).
  { by rewrite merge_lookup, lookup_insert_eq. }
  split; [done|]. split; [done|]. split; [|split; [|split; [done|]]].
  - intros k Hk Hu. by rewrite merge_lookup, lookup_insert_ne, Hu.
  - intros k v Hk Hu. by rewrite merge_lookup, lookup_insert_ne, Hu.
  - intros t0 t1 _ Ht1. rewrite Hts in Ht1. by simplify_eq.
Qed.

(** C7. An update of a contact query that exists, when the engine performs
    it, merges the supplied fields and nothing else: no clock is read and
    the write carries the partial record as it came, so every field that is
    not supplied, the update timestamp included, keeps its value.  The other
    update operations add the fresh update timestamp to their write. *)
Theorem updateContactQuery_no_timestamp_refresh
    (id : string) (updates : Row) (w : World) (old : Row) (rest : list Row) :
  found contactQueries id (db w) = old :: rest →
  performed (updateContactQuery env id updates w) →
  (∃ r w', updateContactQuery env id updates w = (Ok r, w')
     ∧ r ∈ rows contactQueries (db w')
     ∧ (∀ k, updates !! k = None → r !! k = old !! k)
     ∧ (∀ k v, updates !! k = Some v → r !! k = Some v)
     ∧ journal w' = journal w ++ [SqlUpdate contactQueries updates "id" id]
     ∧ tick w' = S (tick w))
  ∧ (∀ e id' updates' w0 w1 r,
       update_of env e id' updates' w0 = (Ok r, w1) →
       journal w1 = journal w0 ++
         [SqlUpdate (entity_table e)
            (<["updatedAt" := VDate (clock env (tick w0))]> updates') "id" id']
       ∧ r !! "updatedAt" = Some (VDate (clock env (tick w0)))).
Proof.
  intros Hf Hp. split.
  - change (updateContactQuery env id updates w)
      with (run_mutation env (MUpdateContactQuery updates) id w) in Hp |- *.
    pose proof (run_mutation_performed env _ _ _ Hp) as Hrun.
    cbn [mutation_table mutation_set mutation_world] in Hrun.
    rewrite Hf in Hrun. rewrite Hrun.
    eexists _, _. split; [done|]. cbn [db commit journal tick].
    rewrite rows_with_rows. repeat split.
    + by eapply merged_stored.
    + intros k Hk. by rewrite merge_lookup, Hk.
    + intros k v Hk. by rewrite merge_lookup, Hk.
  - intros e id' updates' w0 w1 r Hrun.
    assert (Hp' : performed (update_of env e id' updates' w0)).
    { unfold performed. by rewrite Hrun. }
    rewrite update_of_eq in Hrun, Hp'.
    rewrite (run_mutation_performed env _ _ _ Hp') in Hrun.
    cbn [mutation_table mutation_set mutation_world] in Hrun.
    destruct (found (entity_table e) id' (db w0)) as [|old' rest']; simplify_eq.
    split; [done|]. by rewrite merge_lookup, lookup_insert_eq.
Qed.


End MutationTheorems.

(** ** Lead assignment *)

Section Assignment.

Context (env : Env).

Lemma assignment_accepted leadId dsaId w :
  accepts leads (rows leads (db w))
    (update_row (mutation_set env (MAssignLeadToDsa dsaId) w) "id" leadId
       <$> rows leads (db w)).
Proof.
  apply accepts_unchanged. intros c Hc.
  apply keys_update_row. cbn in Hc. apply list_elem_of_singleton in Hc as ->.
  done.
Qed.

(** C4. With the engine in reach, assignLeadToDsa on a lead that exists
    makes one write, whose set record carries the partner reference, the
    assignment timestamp and the update timestamp together: the lead
    returned and every stored lead of that identifier have the partner
    [dsaId] and a non-null assignment timestamp, the other leads are left as
    they were, and the journal grows by that one statement.  On an
    identifier no lead has, it throws "Lead not found" and the leads stay as
    they were. *)
Theorem assignLeadToDsa_single_mutation (leadId dsaId : string) (w : World) :
  outage env (S (S (tick w))) = false →
  (found leads leadId (db w) = [] →
     (assignLeadToDsa env leadId dsaId w).1 = Err (Error "Lead not found")
     ∧ db (assignLeadToDsa env leadId dsaId w).2 = db w)
  ∧ (∀ old rest, found leads leadId (db w) = old :: rest →
       ∃ r w', assignLeadToDsa env leadId dsaId w = (Ok r, w')
         ∧ r !! "assignedDsaId" = Some (VStr dsaId)
         ∧ r !! "assignedAt" = Some (VDate (clock env (tick w)))
         ∧ r !! "updatedAt" = Some (VDate (clock env (S (tick w))))
         ∧ journal w' = journal w ++
             [SqlUpdate leads
                {[ "assignedDsaId" := VStr dsaId;
                   "assignedAt" := VDate (clock env (tick w));
                   "updatedAt" := VDate (clock env (S (tick w))) ]} "id" leadId]
         ∧ (∀ r', r' ∈ rows leads (db w') → where_eq "id" leadId r' →
              r' !! "assignedDsaId" = Some (VStr dsaId)
              ∧ r' !! "assignedAt" = Some (VDate (clock env (tick w))))
         ∧ (∀ r0, r0 ∈ rows leads (db w) → ¬ where_eq "id" leadId r0 →
              r0 ∈ rows leads (db w'))).
Proof.
  intros Hup.
  assert (Hp : performed (run_mutation env (MAssignLeadToDsa dsaId) leadId w)).
  { apply run_mutation_accepted; [done|]. apply assignment_accepted. }
  pose proof (run_mutation_performed env _ _ _ Hp) as Hrun.
  cbn [run_mutation mutation_table mutation_world] in Hrun.
  set (set := mutation_set env (MAssignLeadToDsa dsaId) w) in *.
  assert (Hset : ∀ r : Row,
    merge set r !! "assignedDsaId" = Some (VStr dsaId)
    ∧ merge set r !! "assignedAt" = Some (VDate (clock env (tick w)))
    ∧ merge set r !! "updatedAt" = Some (VDate (clock env (S (tick w))))).
  { intros r. by rewrite !merge_lookup. }
  split.
  - intros Hmiss. rewrite Hrun, Hmiss. split; [done|].
    cbn [snd db commit]. rewrite update_row_miss by done.
    apply with_rows_same.
  - intros old rest Hf. rewrite Hrun, Hf. eexists _, _. split; [done|].
    destruct (Hset old) as (? & ? & ?).
    do 4 (split; [done|]). cbn [db commit]. rewrite rows_with_rows. split.
    + intros r' Hin Hid. apply list_elem_of_fmap in Hin as (r0 & -> & Hin).
      destruct (decide (where_eq "id" leadId r0)) as [Hr0|Hr0].
      * rewrite update_row_hit by done. destruct (Hset r0) as (? & ? & ?). done.
      * rewrite update_row_other in Hid by done. done.
    + intros r0 Hin Hr0. apply list_elem_of_fmap. exists r0.
      by rewrite update_row_other.
Qed.

End Assignment.

(** ** Credentials *)

Section Credentials.

Context `{Bcrypt} (env : Env).

Lemma head_take_1 {A} (l : list A) : head (take 1 l) = head l.
Proof. by destruct l. Qed.

Lemma getUserByUsername_eq name w :
  getUserByUsername env name w =
    if outage env (tick w) then (Err PersistenceFailure, bump w)
    else (Ok (user_named name (db w)), bump w).
Proof.
  unfold getUserByUsername, mbind, M_bind, db_select, user_named.
  destruct (outage env (tick w)); [done|].
  cbn [limit_rows mret M_ret]. by rewrite head_take_1.
Qed.

(** What authenticateUser does, case by case. *)
Lemma authenticateUser_eq name password w :
  authenticateUser env name password w =
    if outage env (tick w) then (Err PersistenceFailure, bump w)
    else match user_named name (db w) with
         | None => (Ok None, bump w)
         | Some u =>
             match u !! "password" with
             | Some (VStr h) =>
                 (Ok (if bcrypt_verify password h then Some u else None), bump w)
             | _ => (Err (Error "data and hash arguments required"), bump w)
             end
         end.
Proof.
  unfold authenticateUser. unfold mbind at 1. unfold M_bind.
  rewrite getUserByUsername_eq.
  destruct (outage env (tick w)); [done|].
  destruct (user_named name (db w)) as [u|]; [|done].
  unfold mbind, M_bind, bcrypt_compare.
  by destruct (u !! "password") as [[]|].
Qed.


(** Keys of a table that has grown by one row. *)
Lemma keys_snoc c (l : list Row) (r : Row) v :
  r !! c = Some v → v ≠ VNull → keys c (l ++ [r]) = keys c l ++ [v].
Proof.
  intros Hr Hv. unfold keys. rewrite omap_app. f_equal.
  cbn. unfold key_of. rewrite Hr. by destruct v.
Qed.

Lemma filter_where_eq_nil c name (l : list Row) :
  VStr name ∉ keys c l → filter (where_eq c name) l = [].
Proof.
  induction l as [|r l IH]; [done|].
  intros Hnot. rewrite filter_cons.
  destruct (decide (where_eq c name r)) as [Hr|Hr].
  - exfalso. apply Hnot. unfold keys. cbn. unfold key_of at 1.
    rewrite Hr. left.
  - apply IH. intros Hin. apply Hnot. unfold keys in *. cbn.
    destruct (key_of c r); [by right|done].
Qed.

(** A user the engine has accepted is the only one of its name. *)
Lemma accepted_user_named (l : list Row) (r : Row) name :
  r !! "username" = Some (VStr name) →
  accepts users l (l ++ [r]) →
  head (filter (where_eq "username" name) (l ++ [r])) = Some r.
Proof.
  intros Hr Hacc. unfold accepts in Hacc. rewrite Forall_forall in Hacc.
  assert (Hc : "username" ∈ unique_columns users).
  { cbn. set_solver. }
  specialize (Hacc _ Hc).
  rewrite (keys_snoc _ _ _ _ Hr) in Hacc by done.
  destruct Hacc as [Hsame|Hnd].
  - apply (f_equal length) in Hsame. rewrite length_app in Hsame.
    cbn in Hsame. lia.
  - apply NoDup_app in Hnd as (_ & Hdisj & _).
    rewrite filter_app, filter_where_eq_nil.
    + rewrite filter_cons, decide_True by done. done.
    + intros Hin. apply (Hdisj _ Hin). left.
Qed.

(** What createUser does when the engine performs the insert. *)
Lemma createUser_performed insertUser p w :
  insertUser !! "password" = Some (VStr p) →
  performed (createUser env insertUser w) →
  let values := <["isActive" := VBool true]>
                 (<["role" := js_or (insertUser !! "role") (VStr "user")]>
                   (<["password" := VStr (bcrypt_digest p 10 (salt env (tick w)))]>
                      insertUser)) in
  let u := values ∪ column_defaults env users (S (tick w)) in
  accepts users (rows users (db w)) (rows users (db w) ++ [u])
  ∧ createUser env insertUser w =
      (Ok (Some u),
       commit users (rows users (db w) ++ [u]) (SqlInsert users values) (bump w)).
Proof.
  intros Hpw. unfold performed, createUser, mbind, M_bind, bcrypt_hash, db_insert.
  rewrite Hpw. cbn [tick bump db].
  destruct (outage env (S (tick w))); [done|].
  destruct (decide _) as [Hacc|]; [|done].
  intros _. cbn zeta. split; done.
Qed.

(** C2. When the engine performs the creation of a user with plaintext
    password [p], createUser returns the stored user, whose credential is
    the bcrypt hash of [p]; with the engine in reach afterwards,
    authenticateUser with the created name and [p] returns that user, and
    with a plaintext that does not verify against the stored hash it
    returns [null] and throws nothing. *)
Theorem createUser_then_authenticateUser
    (insertUser : Row) (name p : string) (w : World) :
  insertUser !! "username" = Some (VStr name) →
  insertUser !! "password" = Some (VStr p) →
  performed (createUser env insertUser w) →
  outage env (tick (createUser env insertUser w).2) = false →
  ∃ u w1 h,
    createUser env insertUser w = (Ok (Some u), w1)
    ∧ u ∈ rows users (db w1)
    ∧ u !! "username" = Some (VStr name)
    ∧ u !! "password" = Some (VStr h)
    ∧ h = bcrypt_digest p 10 (salt env (tick w))
    ∧ authenticateUser env name p w1 = (Ok (Some u), bump w1)
    ∧ (∀ p', bcrypt_verify p' h = false →
         authenticateUser env name p' w1 = (Ok None, bump w1)).
Proof.
  intros Hname Hpw Hp Hup.
  destruct (createUser_performed _ _ _ Hpw Hp) as [Hacc Hrun].
  rewrite Hrun in Hup |- *. cbn [snd] in Hup.
  eexists _, _, _. split; [done|].
  set (h := bcrypt_digest p 10 (salt env (tick w))) in *.
  match goal with |- ?u ∈ _ ∧ _ => set (user := u) in * end.
  assert (Hu_name : user !! "username" = Some (VStr name)).
  { subst user. apply lookup_union_Some_l. by rewrite !lookup_insert_ne. }
  assert (Hu_pw : user !! "password" = Some (VStr h)).
  { subst user. apply lookup_union_Some_l.
    do 2 (rewrite lookup_insert_ne by done). by rewrite lookup_insert_eq. }
  assert (Hfound : user_named name
            (db (commit users (rows users (db w) ++ [user])
                   (SqlInsert users
                      (<["isActive":=VBool true]>
                         (<["role":=js_or (insertUser !! "role") (VStr "user")]>
                            (<["password":=VStr h]> insertUser)))) (bump w)))
          = Some user).
  { unfold user_named. cbn [db commit bump]. rewrite rows_with_rows.
    by apply accepted_user_named. }
  split. { cbn [db commit]. rewrite rows_with_rows. set_solver. }
  do 3 (split; [done|]).
  split.
  - rewrite authenticateUser_eq, Hup, Hfound, Hu_pw. unfold h.
    by rewrite bcrypt_verify_digest.
  - intros p' Hbad. rewrite authenticateUser_eq, Hup, Hfound, Hu_pw. unfold h.
    by rewrite Hbad.
Qed.

(** C1, the defect. updateUser hands a password of the partial record to
    the engine as it comes: on a user that exists, when the engine performs
    the write, the credential stored and returned is the supplied value
    itself, not a hash of it. *)
Theorem updateUser_stores_password_as_supplied
    (id : string) (updates : Row) (plaintext : string) (w : World)
    (old : Row) (rest : list Row) :
  found users id (db w) = old :: rest →
  updates !! "password" = Some (VStr plaintext) →
  performed (updateUser env id updates w) →
  ∃ r w', updateUser env id updates w = (Ok r, w')
    ∧ r ∈ rows users (db w')
    ∧ r !! "password" = Some (VStr plaintext).
Proof.
  intros Hf Hpw Hp.
  change (updateUser env id updates w)
    with (run_mutation env (MUpdate EUser updates) id w) in Hp |- *.
  destruct (run_mutation_hit env _ _ _ _ _ Hp Hf) as (w' & Hrun & Hin & _).
  eexists _, w'. split; [done|]. split; [done|].
  cbn [mutation_set]. by rewrite merge_lookup, lookup_insert_ne, Hpw.
Qed.

End Credentials.

(** ** Lead creation *)

Section LeadCreation.

Context (env : Env).

Lemma createLead_performed lead w :
  performed (createLead env lead w) →
  let values := <["status" := VStr "new"]>
                  (<["source" := js_or (lead !! "source") (VStr "website")]> lead) in
  let r := values ∪ column_defaults env leads (tick w) in
  createLead env lead w =
    (Ok (Some r), commit leads (rows leads (db w) ++ [r]) (SqlInsert leads values) w).
Proof.
  unfold performed, createLead, mbind, M_bind, db_insert.
  destruct (outage env (tick w)); [done|].
  destruct (decide _); [|done]. done.
Qed.

(** C9, amended. The lead createLead returns, when the engine performs the
    insert, has status "new" whatever status the caller supplied; its source
    is the supplied source when that is truthy, and "website" when no source
    is supplied or the supplied one is falsy ([null] or the empty string). *)
Theorem createLead_source_and_status (lead : Row) (w : World) :
  performed (createLead env lead w) →
  ∃ r w', createLead env lead w = (Ok (Some r), w')
    ∧ r ∈ rows leads (db w')
    ∧ r !! "status" = Some (VStr "new")
    ∧ (truthy (lead !! "source") = true → r !! "source" = lead !! "source")
    ∧ (truthy (lead !! "source") = false → r !! "source" = Some (VStr "website")).
Proof.
  intros Hp. rewrite (createLead_performed _ _ Hp).
  eexists _, _. split; [done|]. cbn [db commit]. rewrite rows_with_rows.
  split; [set_solver|]. split; [|split].
  - apply lookup_union_Some_l. by rewrite lookup_insert_eq.
  - intros Ht. rewrite lookup_union_l'.
    + rewrite lookup_insert_ne, lookup_insert_eq by done.
      unfold js_or. destruct (lead !! "source") as [v|]; [|done]. by rewrite Ht.
    + rewrite lookup_insert_ne, lookup_insert_eq by done. done.
  - intros Ht. apply lookup_union_Some_l.
    rewrite lookup_insert_ne, lookup_insert_eq by done.
    unfold js_or. destruct (lead !! "source") as [v|]; [|done]. by rewrite Ht.
Qed.

End LeadCreation.

(** ** Consistency of the store *)

Section Consistency.

Context `{Bcrypt} (env : Env).

Lemma consistent_write t new d :
  consistent d → accepts t (rows t d) new → consistent (with_rows t new d).
Proof.
  intros Hd Hacc t' c Hc. destruct (decide (t = t')) as [<-|Hne].
  - rewrite rows_with_rows. unfold accepts in Hacc.
    rewrite Forall_forall in Hacc. destruct (Hacc c Hc) as [-> | Hnd]; [|done].
    by apply Hd.
  - rewrite rows_with_rows_ne by done. by apply Hd.
Qed.

Lemma consistent_empty : consistent empty_db.
Proof. intros t c _. destruct t; cbn; apply NoDup_nil_2. Qed.

Lemma preserves_ret {A} (a : A) : preserves (mret a).
Proof. by intros w. Qed.

Lemma preserves_throw {A} e : preserves (@throw A e).
Proof. by intros w. Qed.

Lemma preserves_bind {A B} (m : M A) (k : A → M B) :
  preserves m → (∀ a, preserves (k a)) → preserves (m ≫= k).
Proof.
  intros Hm Hk w Hw. unfold mbind, M_bind.
  specialize (Hm w Hw). destruct (m w) as [[a|e] w']; [|done].
  by apply Hk.
Qed.

Lemma preserves_try_catch {A} (body : M A) handler :
  preserves body → (∀ e, preserves (handler e)) → preserves (try_catch body handler).
Proof.
  intros Hm Hk w Hw. unfold try_catch.
  specialize (Hm w Hw). destruct (body w) as [[a|e] w']; [done|].
  by apply Hk.
Qed.

Lemma preserves_console_log line : preserves (console_log line).
Proof. by intros w. Qed.

Lemma preserves_new_Date : preserves (new_Date env).
Proof. by intros w. Qed.

Lemma preserves_bcrypt_hash data rounds : preserves (bcrypt_hash env data rounds).
Proof. intros w. unfold bcrypt_hash. by destruct data as [[]|]. Qed.

Lemma preserves_bcrypt_compare data hash : preserves (bcrypt_compare data hash).
Proof. intros w. unfold bcrypt_compare. by destruct hash as [[]|]. Qed.

Lemma preserves_db_select t col key limit : preserves (db_select env t col key limit).
Proof. intros w. unfold db_select. by destruct (outage env (tick w)). Qed.

Lemma preserves_db_select_all t : preserves (db_select_all env t).
Proof. intros w. unfold db_select_all. by destruct (outage env (tick w)). Qed.

Lemma preserves_db_insert t values : preserves (db_insert env t values).
Proof.
  intros w Hw. unfold db_insert. destruct (outage env (tick w)); [done|].
  destruct (decide _); [|done]. by apply consistent_write.
Qed.

Lemma preserves_db_update t set col key : preserves (db_update env t set col key).
Proof.
  intros w Hw. unfold db_update. destruct (outage env (tick w)); [done|].
  destruct (decide _); [|done]. by apply consistent_write.
Qed.

Create HintDb gateway.

#[local] Hint Resolve preserves_ret preserves_throw preserves_bind
  preserves_try_catch preserves_console_log preserves_new_Date
  preserves_bcrypt_hash preserves_bcrypt_compare preserves_db_select
  preserves_db_select_all preserves_db_insert preserves_db_update : gateway.

Ltac preserves_step :=
  match goal with
  | |- preserves (match ?x with _ => _ end) => destruct x
  | |- preserves (if ?x then _ else _) => destruct x
  | |- ∀ _, _ => intro
  | |- preserves (_ ≫= _) => apply preserves_bind
  | |- preserves (try_catch _ _) => apply preserves_try_catch
  | |- preserves _ => solve [eauto with gateway]
  end.

Ltac solve_preserves := repeat preserves_step.

Lemma checked_update_preserves t set key msg :
  preserves (checked_update env t set key msg).
Proof. unfold checked_update. solve_preserves. Qed.

(** Every operation of the gateway keeps a consistent store consistent:
    the states the gateway reaches from the empty store are consistent. *)
Lemma initializeDefaultUsers_preserves : preserves (initializeDefaultUsers env).
Proof. unfold initializeDefaultUsers, console_error. solve_preserves. Qed.

Lemma createUser_preserves insertUser : preserves (createUser env insertUser).
Proof. unfold createUser. solve_preserves. Qed.

Lemma authenticateUser_preserves name p : preserves (authenticateUser env name p).
Proof. unfold authenticateUser, getUserByUsername. solve_preserves. Qed.

Lemma run_mutation_preserves m id : preserves (run_mutation env m id).
Proof.
  destruct m as [[] updates|updates|dsaId]; cbn;
    unfold updateUser, updateLoanApplication, updateDsaPartner, updateLead,
      updateContactQuery, assignLeadToDsa; solve_preserves.
Qed.

Lemma create_operations_preserve r :
  preserves (createLoanApplication env r) ∧ preserves (createDsaPartner env r)
  ∧ preserves (createLead env r) ∧ preserves (createContactQuery env r).
Proof.
  unfold createLoanApplication, createDsaPartner, createLead, createContactQuery.
  repeat split; solve_preserves.
Qed.

End Consistency.

(** ** The bootstrap *)

Section Bootstrap.

Context `{Bcrypt} (env : Env).

Lemma take_1_nil {A} (l : list A) : length (take 1 l) = 0%nat → l = [].
Proof. by destruct l. Qed.

Lemma bootstrap_failures_log w line :
  line ≠ "Error initializing default users:" →
  bootstrap_failures (console_log line w).2 = bootstrap_failures w.
Proof.
  intros Hne. unfold bootstrap_failures. cbn.
  rewrite filter_app, filter_cons, decide_False by done.
  by rewrite filter_nil, app_nil_r.
Qed.

Lemma bootstrap_failures_error w :
  bootstrap_failures (console_error "Error initializing default users:" w).2
  = S (bootstrap_failures w).
Proof.
  unfold bootstrap_failures. cbn.
  rewrite filter_app, filter_cons, decide_True by done.
  rewrite filter_nil, length_app. cbn. lia.
Qed.

Lemma initializeDefaultUsers_step w :
  (initializeDefaultUsers env w).1 = Ok ()
  ∧ bootstrap_step w (initializeDefaultUsers env w).2.
Proof.
  unfold initializeDefaultUsers, try_catch, mbind, M_bind, db_select.
  cbn beta. destruct (outage env (tick w)) eqn:Hup.
  { split; [done|]. apply bootstrap_failed; [done|].
    apply (bootstrap_failures_error (bump w)). }
  cbn [limit_rows]. fold (admins (db w)).
  destruct (decide (length (take 1 (admins (db w))) = 0%nat)) as [Hnone|Hsome].
  - apply take_1_nil in Hnone.
    unfold bcrypt_hash, db_insert. cbn [tick bump db].
    destruct (outage env (S (S (tick w)))).
    { split; [done|]. apply bootstrap_failed; [done|].
      apply (bootstrap_failures_error (bump (bump (bump w)))). }
    destruct (decide _) as [Hacc|].
    + split; [done|]. eapply bootstrap_created; [done| |reflexivity|].
      * unfold where_eq. apply lookup_union_Some_l. by rewrite lookup_insert_eq.
      * exact (bootstrap_failures_log (commit users _ _ (bump (bump w)))
                 "Default admin user created" ltac:(done)).
    + split; [done|]. apply bootstrap_failed; [done|].
      apply (bootstrap_failures_error (bump (bump (bump w)))).
  - split; [done|]. apply bootstrap_skipped; [done|done|].
    intros Hnil. apply Hsome. by rewrite Hnil.
Qed.

(** Distinct usernames leave room for one admin at most. *)
Lemma filter_where_eq_unique c name (l : list Row) :
  NoDup (keys c l) → (length (filter (where_eq c name) l) ≤ 1)%nat.
Proof.
  induction l as [|r l IH]; [cbn; lia|].
  intros Hnd. rewrite filter_cons.
  destruct (decide (where_eq c name r)) as [Hr|Hr].
  - unfold keys in Hnd. cbn in Hnd. unfold key_of at 1 in Hnd.
    rewrite Hr in Hnd. apply NoDup_cons in Hnd as [Hnot _].
    rewrite (filter_where_eq_nil _ _ _ Hnot). cbn. lia.
  - apply IH. unfold keys in Hnd |- *. cbn in Hnd.
    destruct (key_of c r); [|done]. by apply NoDup_cons in Hnd as [_ ?].
Qed.

Lemma consistent_admins d : consistent d → (length (admins d) ≤ 1)%nat.
Proof.
  intros Hd. apply filter_where_eq_unique. apply Hd. cbn. set_solver.
Qed.

(** A bootstrap that did not fail leaves exactly one admin. *)
Lemma bootstrap_step_one_admin w w' :
  consistent (db w) → bootstrap_step w w' →
  bootstrap_failures w' = bootstrap_failures w →
  length (admins (db w')) = 1%nat.
Proof.
  intros Hw [Hdb Hf|Hdb Hf Hsome|r Hnone Hr Hdb Hf] Hsame.
  - lia.
  - rewrite Hdb. pose proof (consistent_admins _ Hw).
    destruct (admins (db w)); [done|]. cbn in *. lia.
  - unfold admins in *. rewrite Hdb, rows_with_rows, filter_app, Hnone.
    by rewrite filter_cons, decide_True.
Qed.

(** Once there is an admin, no bootstrap touches the store. *)
Lemma bootstrap_step_stable w w' :
  admins (db w) ≠ [] → bootstrap_step w w' → db w' = db w.
Proof. intros Hsome [Hdb _|Hdb _ _|r Hnone _ _ _]; done. Qed.

Lemma repeat_bootstrap_stable n w :
  admins (db w) ≠ [] →
  db (repeat_run (initializeDefaultUsers env) n w) = db w.
Proof.
  revert w. induction n as [|n IH]; intros w Hsome; [done|].
  cbn [repeat_run].
  pose proof (initializeDefaultUsers_step w) as [_ Hstep].
  pose proof (bootstrap_step_stable _ _ Hsome Hstep) as Hdb.
  rewrite IH; [done|]. by rewrite Hdb.
Qed.

Lemma repeat_bootstrap_consistent n w :
  consistent (db w) →
  consistent (db (repeat_run (initializeDefaultUsers env) n w)).
Proof.
  revert w. induction n as [|n IH]; intros w Hw; [done|].
  cbn [repeat_run]. apply IH. by apply initializeDefaultUsers_preserves.
Qed.

Lemma bootstrap_step_failures w w' :
  bootstrap_step w w' →
  bootstrap_failures w' = bootstrap_failures w
  ∨ (bootstrap_failures w' = S (bootstrap_failures w) ∧ db w' = db w).
Proof. intros [Hdb Hf|Hdb Hf _|r _ _ _ Hf]; auto. Qed.

(** C8, amended. The constructor returns at once, leaving the bootstrap
    pending, and the bootstrap never throws: whatever fails during its check
    or its insert is caught and logged.  From a store that satisfies the
    uniqueness constraints, any number of bootstraps run one after the
    other leaves at most one user called "admin", and exactly one unless
    every one of the runs failed. *)
Theorem bootstrap_idempotent_and_nonfatal (w : World) (n : nat) :
  (∀ w0, constructor env w0 = (Ok (initializeDefaultUsers env), w0)
         ∧ (initializeDefaultUsers env w0).1 = Ok ())
  ∧ (consistent (db w) →
     (length (admins (db (repeat_run (initializeDefaultUsers env) n w))) ≤ 1)%nat)
  ∧ (consistent (db w) →
     (bootstrap_failures (repeat_run (initializeDefaultUsers env) (S n) w)
        < bootstrap_failures w + S n)%nat →
     length (admins (db (repeat_run (initializeDefaultUsers env) (S n) w))) = 1%nat).
Proof.
  split; [intros w0; split; [done|apply initializeDefaultUsers_step]|].
  split.
  { intros Hw. apply consistent_admins. by apply repeat_bootstrap_consistent. }
  revert w. induction n as [|n IH]; intros w Hw Hlt.
  - cbn [repeat_run] in *.
    pose proof (initializeDefaultUsers_step w) as [_ Hstep].
    apply (bootstrap_step_one_admin w); [done|done|].
    destruct (bootstrap_step_failures _ _ Hstep) as [?|[? _]]; lia.
  - change (repeat_run (initializeDefaultUsers env) (S (S n)) w)
      with (repeat_run (initializeDefaultUsers env) (S n)
              (initializeDefaultUsers env w).2) in *.
    pose proof (initializeDefaultUsers_step w) as [_ Hstep].
    destruct (bootstrap_step_failures _ _ Hstep) as [Hsame|[Hfail Hdb]].
    + pose proof (bootstrap_step_one_admin _ _ Hw Hstep Hsame) as Hone.
      rewrite repeat_bootstrap_stable; [done|].
      intros Hnil. by rewrite Hnil in Hone.
    + apply IH; [by rewrite Hdb|]. lia.
Qed.

End Bootstrap.

(** ** The theorems at concrete inputs *)

Ltac by_running := apply (bool_decide_unpack _); vm_compute; exact I.

Lemma performed_by_test {A} (o : result A * World) :
  engine_failed o = false → performed o.
Proof.
  unfold engine_failed, performed. intros Htest Hbad. rewrite Hbad in Htest.
  discriminate Htest.
Qed.

Ltac performed_by_running := apply performed_by_test; vm_compute; reflexivity.

(** The sample store satisfies the constraints of the schema. *)
Lemma world1_consistent : consistent (db world1).
Proof.
  intros t c Hc.
  destruct t; cbn in Hc;
    repeat (apply elem_of_cons in Hc as [->|Hc]);
    try (by apply elem_of_nil in Hc);
    apply (bool_decide_unpack _); vm_compute; exact I.
Qed.


(** C6 at work: the status of "lead-1" is updated; its name stays. *)
Lemma update_changes_supplied_fields_only_witness :
  found (entity_table ELead) "lead-1" (db world1) = [lead1]
  ∧ performed (update_of env0 ELead "lead-1" {[ "status" := VStr "contacted" ]} world1)
  ∧ ∃ r w', update_of env0 ELead "lead-1" {[ "status" := VStr "contacted" ]} world1
            = (Ok r, w')
      ∧ r !! "name" = lead1 !! "name"
      ∧ r !! "status" = Some (VStr "contacted")
      ∧ r !! "updatedAt" = Some (VDate 1000).
Proof.
  assert (Hf : found (entity_table ELead) "lead-1" (db world1) = [lead1])
    by by_running.
  assert (Hp : performed (update_of env0 ELead "lead-1"
                            {[ "status" := VStr "contacted" ]} world1))
    by performed_by_running.
  split; [exact Hf|]. split; [exact Hp|].
  destruct (update_changes_supplied_fields_only env0 _ _ _ _ _ _ Hf Hp)
    as (r & w' & Hrun & _ & Hkeep & Hset & Hts & _).
  exists r, w'. split; [exact Hrun|]. split; [|split].
  - apply Hkeep; [discriminate|by_running].
  - apply Hset; [discriminate|by_running].
  - exact Hts.
Defined.

(** C7 at work: "query-1" is closed and keeps its update timestamp. *)
Lemma updateContactQuery_no_timestamp_refresh_witness :
  found contactQueries "query-1" (db world1) = [query1]
  ∧ performed (updateContactQuery env0 "query-1" {[ "status" := VStr "closed" ]} world1)
  ∧ ∃ r w', updateContactQuery env0 "query-1" {[ "status" := VStr "closed" ]} world1
            = (Ok r, w')
      ∧ r !! "status" = Some (VStr "closed")
      ∧ r !! "updatedAt" = Some (VDate 900)
      ∧ tick w' = 1%nat.
Proof.
  assert (Hf : found contactQueries "query-1" (db world1) = [query1]) by by_running.
  assert (Hp : performed (updateContactQuery env0 "query-1"
                            {[ "status" := VStr "closed" ]} world1))
    by performed_by_running.
  split; [exact Hf|]. split; [exact Hp|].
  destruct (updateContactQuery_no_timestamp_refresh env0 _ _ _ _ _ Hf Hp)
    as [(r & w' & Hrun & _ & Hkeep & Hset & _ & Htick) _].
  exists r, w'. split; [exact Hrun|]. split; [|split].
  - apply Hset. by_running.
  - rewrite Hkeep by by_running. by_running.
  - exact Htick.
Defined.


(** C4 at work: "lead-1" goes to "partner-42"; "lead-2" stays as it was. *)
Lemma assignLeadToDsa_single_mutation_witness :
  outage env0 (S (S (tick world1))) = false
  ∧ ∃ r w', assignLeadToDsa env0 "lead-1" "partner-42" world1 = (Ok r, w')
      ∧ r !! "assignedDsaId" = Some (VStr "partner-42")
      ∧ r !! "assignedAt" = Some (VDate 1000)
      ∧ lead2 ∈ rows leads (db w')
      ∧ length (journal w') = 1%nat.
Proof.
  split; [reflexivity|].
  destruct (assignLeadToDsa_single_mutation env0 "lead-1" "partner-42" world1
              eq_refl) as [_ Hhit].
  destruct (Hhit lead1 [] ltac:(by_running))
    as (r & w' & Hrun & Hdsa & Hat & _ & Hj & _ & Hothers).
  exists r, w'. split; [exact Hrun|]. split; [exact Hdsa|]. split; [exact Hat|].
  split.
  - apply Hothers.
    + right. left.
    + intros Hid. vm_compute in Hid. discriminate Hid.
  - rewrite Hj. reflexivity.
Defined.


(** C2 at work: alice is created in the empty store and authenticates. *)
Lemma createUser_then_authenticateUser_witness :
  alice !! "username" = Some (VStr "alice")
  ∧ alice !! "password" = Some (VStr "secret")
  ∧ performed (@createUser demo_bcrypt env0 alice world0)
  ∧ outage env0 (tick (@createUser demo_bcrypt env0 alice world0).2) = false
  ∧ ∃ u w1, @createUser demo_bcrypt env0 alice world0 = (Ok (Some u), w1)
      ∧ u !! "password" = Some (VStr "$2b$salt$secret")
      ∧ @authenticateUser demo_bcrypt env0 "alice" "secret" w1 = (Ok (Some u), bump w1)
      ∧ @authenticateUser demo_bcrypt env0 "alice" "wrong" w1 = (Ok None, bump w1).
Proof.
  assert (Hname : alice !! "username" = Some (VStr "alice")) by by_running.
  assert (Hpw : alice !! "password" = Some (VStr "secret")) by by_running.
  assert (Hp : performed (@createUser demo_bcrypt env0 alice world0))
    by performed_by_running.
  do 3 (split; [done|]). split; [reflexivity|].
  destruct (@createUser_then_authenticateUser demo_bcrypt env0 alice "alice"
              "secret" world0 Hname Hpw Hp eq_refl)
    as (u & w1 & h & Hrun & _ & _ & Hh & -> & Hgood & Hwrong).
  exists u, w1. split; [exact Hrun|]. split; [exact Hh|]. split; [exact Hgood|].
  apply Hwrong. by_running.
Defined.

(** C1 at work: alice's password is updated to "hunter2". *)
Lemma updateUser_stores_password_as_supplied_witness :
  found users "user-1" (db world1) = [stored_alice]
  ∧ ({[ "password" := VStr "hunter2" ]} : Row) !! "password" = Some (VStr "hunter2")
  ∧ performed (updateUser env0 "user-1" {[ "password" := VStr "hunter2" ]} world1)
  ∧ ∃ r w', updateUser env0 "user-1" {[ "password" := VStr "hunter2" ]} world1
            = (Ok r, w')
      ∧ r ∈ rows users (db w')
      ∧ r !! "password" = Some (VStr "hunter2").
Proof.
  assert (Hf : found users "user-1" (db world1) = [stored_alice]) by by_running.
  assert (Hpw : ({[ "password" := VStr "hunter2" ]} : Row) !! "password"
                = Some (VStr "hunter2")) by by_running.
  assert (Hp : performed (updateUser env0 "user-1"
                            {[ "password" := VStr "hunter2" ]} world1))
    by performed_by_running.
  do 3 (split; [done|]).
  exact (updateUser_stores_password_as_supplied env0 _ _ _ _ _ _ Hf Hpw Hp).
Defined.

(** C9 at work: a lead created with status "won" and no source. *)
Lemma createLead_source_and_status_witness :
  performed (createLead env0 {[ "name" := VStr "Ravi"; "status" := VStr "won" ]} world0)
  ∧ ∃ r w', createLead env0 {[ "name" := VStr "Ravi"; "status" := VStr "won" ]} world0
            = (Ok (Some r), w')
      ∧ r !! "status" = Some (VStr "new")
      ∧ r !! "source" = Some (VStr "website").
Proof.
  assert (Hp : performed (createLead env0
                 {[ "name" := VStr "Ravi"; "status" := VStr "won" ]} world0))
    by performed_by_running.
  split; [exact Hp|].
  destruct (createLead_source_and_status env0 _ _ Hp)
    as (r & w' & Hrun & _ & Hstatus & _ & Hdefault).
  exists r, w'. split; [exact Hrun|]. split; [exact Hstatus|].
  apply Hdefault. by_running.
Defined.

(** C8 at work: two bootstraps of the empty store, and one with the engine
    out of reach. *)
Lemma bootstrap_idempotent_and_nonfatal_witness :
  consistent (db world0)
  ∧ (bootstrap_failures
       (repeat_run (@initializeDefaultUsers demo_bcrypt env0) 2 world0)
       < bootstrap_failures world0 + 2)%nat
  ∧ length (admins (db (repeat_run (@initializeDefaultUsers demo_bcrypt env0) 2
                          world0))) = 1%nat
  ∧ (@initializeDefaultUsers demo_bcrypt env_down world0).1 = Ok ().
Proof.
  assert (Hlt : (bootstrap_failures
                   (repeat_run (@initializeDefaultUsers demo_bcrypt env0) 2 world0)
                 < bootstrap_failures world0 + 2)%nat).
  { vm_compute. lia. }
  split; [exact consistent_empty|]. split; [exact Hlt|].
  split.
  - exact (proj2 (proj2 (@bootstrap_idempotent_and_nonfatal demo_bcrypt env0
                           world0 1)) consistent_empty Hlt).
  - exact (proj2 (proj1 (@bootstrap_idempotent_and_nonfatal demo_bcrypt env_down
                           world0 0) world0)).
Defined.

(** ** Where the claims fail *)

(** C6 as stated, refuted: the lead "lead-1" is updated twice within the
    same millisecond; the update timestamp of the second result equals the
    one the first update left and is not strictly later. *)
Lemma update_timestamp_not_strictly_later :
  found leads "lead-1" (db world_updated) = [contacted_lead]
  ∧ (update_of env_same_ms ELead "lead-1" {[ "status" := VStr "qualified" ]}
       world_updated).1 = Ok qualified_lead
  ∧ contacted_lead !! "updatedAt" = Some (VDate 1000)
  ∧ qualified_lead !! "updatedAt" = Some (VDate 1000)
  ∧ ¬ (1000 < 1000).
Proof.
  split; [by_running|]. split; [by_running|].
  split; [by_running|]. split; [by_running|]. lia.
Qed.

(** C9 as stated, refuted: a creation input that supplies the empty string
    as its source gets a lead whose source is "website", not the supplied
    one. *)
Lemma createLead_empty_source_replaced :
  lead_without_source !! "source" = Some (VStr "")
  ∧ (createLead env0 lead_without_source world0).1 = Ok (Some lead_from_website)
  ∧ lead_from_website !! "source" = Some (VStr "website")
  ∧ lead_from_website !! "source" ≠ lead_without_source !! "source".
Proof.
  split; [by_running|]. split; [by_running|]. split; [by_running|].
  intros Heq. vm_compute in Heq. discriminate Heq.
Qed.

(** C8 as stated, refuted: the store is consistent and the engine is in
    reach at every moment, but another user holds the email of the default
    admin; every bootstrap finds no admin, has its insert refused and logs
    the failure, and five bootstraps in a row leave no user called "admin". *)
Lemma bootstrap_email_taken_no_admin :
  consistent (db world_taken)
  ∧ (∀ n, outage env0 n = false)
  ∧ admins (db (repeat_run (@initializeDefaultUsers demo_bcrypt env0) 5 world_taken))
    = []
  ∧ length (admins (db (repeat_run (@initializeDefaultUsers demo_bcrypt env0) 5
                          world_taken))) ≠ 1%nat
  ∧ bootstrap_failures (repeat_run (@initializeDefaultUsers demo_bcrypt env0) 5
                          world_taken) = 5%nat.
Proof.
  split.
  { intros t c Hc.
    destruct t; cbn in Hc;
      repeat (apply elem_of_cons in Hc as [->|Hc]);
      try (by apply elem_of_nil in Hc);
      apply (bool_decide_unpack _); vm_compute; exact I. }
  split; [intros n; reflexivity|].
  split; [by_running|]. split; [|by_running].
  intros Hone. vm_compute in Hone. discriminate Hone.
Qed.

(** C1, the defect at a concrete input: alice's password is updated to
    "hunter2"; the store then holds "hunter2" itself, and under the stand-in
    for bcrypt she can no longer authenticate with it. *)
Lemma updateUser_plaintext_example :
  ∃ r w', updateUser env0 "user-1" {[ "password" := VStr "hunter2" ]} world1 = (Ok r, w')
    ∧ rows users (db w') = [r]
    ∧ r !! "password" = Some (VStr "hunter2")
    ∧ (@authenticateUser demo_bcrypt env0 "alice" "hunter2" w').1 = Ok None.
Proof.
  eexists _, _. split; [reflexivity|].
  split; [by_running|]. split; by_running.
Qed.

(** ** Reads *)

Section Reads.

Context `{Bcrypt} (env : Env).

(** What a lookup does, case by case. *)
Lemma run_lookup_eq l w :
  run_lookup env l w =
    if outage env (tick w) then (Err PersistenceFailure, bump w)
    else (Ok (head (filter (where_eq (lookup_column l) (lookup_key l))
                      (rows (lookup_table l) (db w)))), bump w).
Proof.
  destruct l; cbn [run_lookup lookup_table lookup_column lookup_key];
    unfold getUser, getUserByUsername, getUserByEmail, getDsaPartnerByUserId,
      mbind, M_bind, db_select;
    (destruct (outage env (tick w)); [done|]);
    cbn [limit_rows mret M_ret]; by rewrite head_take_1.
Qed.

(** What a listing does, case by case. *)
Lemma run_listing_eq q w :
  run_listing env q w =
    if outage env (tick w) then (Err PersistenceFailure, bump w)
    else (Ok (filter (selected q) (rows (listing_table q) (db w))), bump w).
Proof.
  assert (Hall : ∀ l : list Row, filter (λ _, True) l = l).
  { induction l as [|r l IH]; [done|]. rewrite filter_cons_True by done.
    by rewrite IH. }
  destruct q; cbn [run_listing listing_table];
    unfold getLoanApplications, getLoanApplicationsByUser,
      getLoanApplicationsByDsa, getDsaPartners, getLeads, getLeadsByDsa,
      getContactQueries, db_select, db_select_all;
    (destruct (outage env (tick w)); [done|]); cbn [limit_rows];
    try done; f_equal; f_equal; symmetry; apply Hall.
Qed.

Lemma head_filter_Some {A} (P : A → Prop) `{!∀ x, Decision (P x)} (l : list A) x :
  head (filter P l) = Some x →
  ∃ before after, l = before ++ x :: after ∧ P x ∧ Forall (λ y, ¬ P y) before.
Proof.
  induction l as [|a l IH]; [done|].
  rewrite filter_cons. destruct (decide (P a)) as [Ha|Ha].
  - intros [= ->]. exists [], l. by repeat split.
  - intros Hx. destruct (IH Hx) as (before & after & -> & Hp & Hb).
    exists (a :: before), after. repeat split; [done|]. by constructor.
Qed.

(** X1. With the engine in reach, a lookup (getUser, getUserByUsername,
    getUserByEmail, getDsaPartnerByUserId) never throws: it answers
    [undefined] exactly when no row of its table carries the key, and
    otherwise the first row that does. *)
Theorem lookup_first_match_or_absent (l : lookup) (w : World) :
  outage env (tick w) = false →
  ∃ o, run_lookup env l w = (Ok o, bump w)
    ∧ (o = None ↔ ∀ r, r ∈ rows (lookup_table l) (db w) →
                      ¬ where_eq (lookup_column l) (lookup_key l) r)
    ∧ (∀ r, o = Some r →
         ∃ before after,
           rows (lookup_table l) (db w) = before ++ r :: after
           ∧ where_eq (lookup_column l) (lookup_key l) r
           ∧ Forall (λ r', ¬ where_eq (lookup_column l) (lookup_key l) r') before).
Proof.
  intros Hup. rewrite run_lookup_eq, Hup. eexists. split; [done|]. split.
  - rewrite head_None. split.
    + intros Hnil r Hin Hr. by eapply filter_nil_not_elem_of.
    + intros Hnone. destruct (filter _ _) as [|r rest] eqn:Hf; [done|].
      assert (Hin : r ∈ filter (where_eq (lookup_column l) (lookup_key l))
                         (rows (lookup_table l) (db w))).
      { rewrite Hf. left. }
      apply list_elem_of_filter in Hin as [Hr Hin]. by destruct (Hnone r Hin).
  - intros r Hr. by apply (head_filter_Some _ _ _ Hr).
Qed.

(** X2. With the engine in reach, a listing (getLoanApplications,
    getLoanApplicationsByUser, getLoanApplicationsByDsa, getDsaPartners,
    getLeads, getLeadsByDsa, getContactQueries) answers with exactly the
    rows of its table that carry the key it asks for, all rows when it asks
    for none, in the order of the table: a row whose key is different,
    [null] or missing is never among them. *)
Theorem listing_exact (q : listing) (w : World) :
  outage env (tick w) = false →
  ∃ l, run_listing env q w = (Ok l, bump w)
    ∧ l `sublist_of` rows (listing_table q) (db w)
    ∧ (∀ r, r ∈ l ↔ r ∈ rows (listing_table q) (db w) ∧ selected q r)
    ∧ (∀ dsaId r, q = QLeadsByDsa dsaId → r ∈ l →
         r !! "assignedDsaId" ≠ None ∧ r !! "assignedDsaId" ≠ Some VNull
         ∧ ∀ other, other ≠ dsaId → r !! "assignedDsaId" ≠ Some (VStr other)).
Proof.
  intros Hup. rewrite run_listing_eq, Hup. eexists. split; [done|].
  split; [apply sublist_filter|]. split.
  - intros r. rewrite list_elem_of_filter. tauto.
  - intros dsaId r -> Hin. apply list_elem_of_filter in Hin as [Hr _].
    cbn in Hr. unfold where_eq in Hr. rewrite Hr. repeat split; try done.
    intros other Hne [= ->]. done.
Qed.

(** X3. The reads write nothing: whatever the engine does, a lookup, a
    listing and authenticateUser leave the store, the journal and the
    console as they were. *)
Theorem reads_write_nothing (w : World) :
  (∀ l, unchanged w (run_lookup env l w).2)
  ∧ (∀ q, unchanged w (run_listing env q w).2)
  ∧ (∀ name password, unchanged w (authenticateUser env name password w).2).
Proof.
  split; [|split].
  - intros l. rewrite run_lookup_eq. by destruct (outage env (tick w)).
  - intros q. rewrite run_listing_eq. by destruct (outage env (tick w)).
  - intros name password. rewrite authenticateUser_eq.
    destruct (outage env (tick w)); [done|].
    destruct (user_named name (db w)) as [u|]; [|done].
    by destruct (u !! "password") as [[]|].
Qed.

End Reads.

(** ** Creations *)

Section Creations.

Context `{Bcrypt} (env : Env).

(** The record a creation hands to the engine, and the world in which the
    engine call is made: createUser draws its salt first. *)
Lemma run_creation_ok c input w o w' :
  run_creation env c input w = (Ok o, w') →
  ∃ values w0,
    (w0 = w ∨ w0 = bump w)
    ∧ o = Some (values ∪ column_defaults env (creation_table c) (tick w0))
    ∧ w' = commit (creation_table c)
             (rows (creation_table c) (db w)
                ++ [values ∪ column_defaults env (creation_table c) (tick w0)])
             (SqlInsert (creation_table c) values) w0
    ∧ (∀ k, k ∉ forced_columns c → values !! k = input !! k)
    ∧ match c with
      | CUser =>
          ∃ p, input !! "password" = Some (VStr p)
             ∧ values !! "password"
               = Some (VStr (bcrypt_digest p 10 (salt env (tick w))))
             ∧ values !! "role" = Some (js_or (input !! "role") (VStr "user"))
             ∧ values !! "isActive" = Some (VBool true)
      | CLoanApplication => values !! "status" = Some (VStr "pending")
      | CDsaPartner => values !! "kycStatus" = Some (VStr "pending")
      | CLead =>
          values !! "status" = Some (VStr "new")
          ∧ values !! "source" = Some (js_or (input !! "source") (VStr "website"))
      | CContactQuery => values !! "status" = Some (VStr "new")
      end.
Proof.
  destruct c; cbn [run_creation creation_table forced_columns];
    unfold createUser, createLoanApplication, createDsaPartner, createLead,
      createContactQuery, mbind, M_bind, bcrypt_hash, db_insert.
  - destruct (input !! "password") as [[| | |p|]|] eqn:Hpw; try done.
    cbn [tick bump db]. destruct (outage env (S (tick w))); [done|].
    destruct (decide _); [|done]. intros [= <- <-].
    eexists _, (bump w). split; [by right|]. split; [done|]. split; [done|].
    split.
    + intros k Hk. rewrite !lookup_insert_ne; [done|set_solver..].
    + exists p. split; [done|].
      repeat split; repeat (rewrite lookup_insert_ne by done);
        by rewrite lookup_insert_eq.
  - destruct (outage env (tick w)); [done|].
    destruct (decide _); [|done]. intros [= <- <-].
    eexists _, w. split; [by left|]. split; [done|]. split; [done|].
    split; [|by rewrite lookup_insert_eq].
    intros k Hk. rewrite lookup_insert_ne; [done|set_solver].
  - destruct (outage env (tick w)); [done|].
    destruct (decide _); [|done]. intros [= <- <-].
    eexists _, w. split; [by left|]. split; [done|]. split; [done|].
    split; [|by rewrite lookup_insert_eq].
    intros k Hk. rewrite lookup_insert_ne; [done|set_solver].
  - destruct (outage env (tick w)); [done|].
    destruct (decide _); [|done]. intros [= <- <-].
    eexists _, w. split; [by left|]. split; [done|]. split; [done|].
    split; [|by rewrite lookup_insert_eq, lookup_insert_ne, lookup_insert_eq].
    intros k Hk. rewrite !lookup_insert_ne; [done|set_solver..].
  - destruct (outage env (tick w)); [done|].
    destruct (decide _); [|done]. intros [= <- <-].
    eexists _, w. split; [by left|]. split; [done|]. split; [done|].
    split; [|by rewrite lookup_insert_eq].
    intros k Hk. rewrite lookup_insert_ne; [done|set_solver].
Qed.

(** A creation that fails has written nothing. *)
Lemma run_creation_err c input w e w' :
  run_creation env c input w = (Err e, w') → unchanged w w'.
Proof.
  destruct c; cbn [run_creation];
    unfold createUser, createLoanApplication, createDsaPartner, createLead,
      createContactQuery, mbind, M_bind, bcrypt_hash, db_insert, throw.
  - destruct (input !! "password") as [[| | |p|]|];
      try (by intros [= <- <-]).
    cbn [tick bump db]. destruct (outage env (S (tick w))); [by intros [= <- <-]|].
    destruct (decide _); [done|]. by intros [= <- <-].
  - destruct (outage env (tick w)); [by intros [= <- <-]|].
    destruct (decide _); [done|]. by intros [= <- <-].
  - destruct (outage env (tick w)); [by intros [= <- <-]|].
    destruct (decide _); [done|]. by intros [= <- <-].
  - destruct (outage env (tick w)); [by intros [= <- <-]|].
    destruct (decide _); [done|]. by intros [= <- <-].
  - destruct (outage env (tick w)); [by intros [= <- <-]|].
    destruct (decide _); [done|]. by intros [= <- <-].
Qed.

(** X4. A creation that succeeds (createUser, createLoanApplication,
    createDsaPartner, createLead, createContactQuery) returns the row it
    stored: its table grows by that one row at the end, the other tables
    stay as they were, the journal grows by one insert, the console is
    untouched, and every supplied field that the creation does not write
    itself is in the row as supplied. *)
Theorem creation_appends_one_row
    (c : creation) (input : Row) (w w' : World) (o : option Row) :
  run_creation env c input w = (Ok o, w') →
  ∃ r values, o = Some r
    ∧ rows (creation_table c) (db w') = rows (creation_table c) (db w) ++ [r]
    ∧ (∀ t, t ≠ creation_table c → rows t (db w') = rows t (db w))
    ∧ journal w' = journal w ++ [SqlInsert (creation_table c) values]
    ∧ console w' = console w
    ∧ (∀ k v, k ∉ forced_columns c → input !! k = Some v → r !! k = Some v).
Proof.
  intros Hrun.
  destruct (run_creation_ok _ _ _ _ _ Hrun)
    as (values & w0 & Hw0 & -> & -> & Hkeep & _).
  eexists _, values. split; [done|]. cbn [db commit journal console].
  rewrite rows_with_rows.
  assert (Hdb : db w0 = db w) by (by destruct Hw0 as [->| ->]).
  assert (Hj : journal w0 = journal w) by (by destruct Hw0 as [->| ->]).
  assert (Hc : console w0 = console w) by (by destruct Hw0 as [->| ->]).
  rewrite Hj, Hc. split; [done|]. split.
  { intros t Ht. rewrite rows_with_rows_ne by done. by rewrite Hdb. }
  do 2 (split; [done|]).
  intros k v Hk Hv. apply lookup_union_Some_l. by rewrite Hkeep.
Qed.

(** X5. The user createUser returns on success has the bcrypt hash of the
    supplied plaintext as its password, and the insert journaled carries
    that hash, not the plaintext; the user is active whatever activity flag
    was supplied; the role is the supplied one when that is truthy and
    "user" otherwise. *)
Theorem createUser_forced_fields (insertUser : Row) (w w' : World) (o : option Row) :
  createUser env insertUser w = (Ok o, w') →
  ∃ u p values, o = Some u
    ∧ insertUser !! "password" = Some (VStr p)
    ∧ u !! "password" = Some (VStr (bcrypt_digest p 10 (salt env (tick w))))
    ∧ journal w' = journal w ++ [SqlInsert users values]
    ∧ values !! "password" = Some (VStr (bcrypt_digest p 10 (salt env (tick w))))
    ∧ u !! "isActive" = Some (VBool true)
    ∧ (truthy (insertUser !! "role") = true → u !! "role" = insertUser !! "role")
    ∧ (truthy (insertUser !! "role") = false → u !! "role" = Some (VStr "user")).
Proof.
  intros Hrun.
  destruct (run_creation_ok CUser _ _ _ _ Hrun)
    as (values & w0 & Hw0 & -> & -> & _ & p & Hpw & Hvp & Hvr & Hva).
  exists (values ∪ column_defaults env users (tick w0)), p, values.
  assert (Hj : journal w0 = journal w) by (by destruct Hw0 as [->| ->]).
  split; [done|]. split; [done|]. split; [by apply lookup_union_Some_l|].
  cbn [journal commit creation_table]. rewrite Hj. split; [done|].
  split; [done|]. split; [by apply lookup_union_Some_l|].
  split; intros Ht.
  - rewrite (lookup_union_Some_l _ _ _ _ Hvr). unfold js_or.
    destruct (insertUser !! "role") as [v|]; [|done]. by rewrite Ht.
  - rewrite (lookup_union_Some_l _ _ _ _ Hvr). unfold js_or.
    destruct (insertUser !! "role") as [v|]; [|done]. by rewrite Ht.
Qed.

(** X6. A loan application is created with status "pending", a partner
    with KYC status "pending" and a contact query with status "new",
    whatever status the input holds. *)
Theorem creation_initial_status (input : Row) (w w' : World) (o : option Row) :
  (createLoanApplication env input w = (Ok o, w') →
     ∃ r, o = Some r ∧ r !! "status" = Some (VStr "pending"))
  ∧ (createDsaPartner env input w = (Ok o, w') →
     ∃ r, o = Some r ∧ r !! "kycStatus" = Some (VStr "pending"))
  ∧ (createContactQuery env input w = (Ok o, w') →
     ∃ r, o = Some r ∧ r !! "status" = Some (VStr "new")).
Proof.
  split; [|split]; intros Hrun.
  - destruct (run_creation_ok CLoanApplication _ _ _ _ Hrun)
      as (values & w0 & _ & -> & _ & _ & Hs).
    eexists. split; [done|]. by apply lookup_union_Some_l.
  - destruct (run_creation_ok CDsaPartner _ _ _ _ Hrun)
      as (values & w0 & _ & -> & _ & _ & Hs).
    eexists. split; [done|]. by apply lookup_union_Some_l.
  - destruct (run_creation_ok CContactQuery _ _ _ _ Hrun)
      as (values & w0 & _ & -> & _ & _ & Hs).
    eexists. split; [done|]. by apply lookup_union_Some_l.
Qed.

End Creations.

(** ** Frames and failures *)

Section Frames.

Context `{Bcrypt} (env : Env).

(** What a mutation does in any world, case by case. *)
Lemma run_mutation_cases m id w :
  let t := mutation_table m in
  let set := mutation_set env m w in
  let new := update_row set "id" id <$> rows t (db w) in
  run_mutation env m id w =
    if outage env (tick (mutation_world m w))
    then (Err PersistenceFailure, bump (mutation_world m w))
    else if decide (accepts t (rows t (db w)) new)
    then match found t id (db w) with
         | [] => (Err (Error (not_found_message m)),
                  commit t new (SqlUpdate t set "id" id) (mutation_world m w))
         | old :: _ => (Ok (merge set old),
                  commit t new (SqlUpdate t set "id" id) (mutation_world m w))
         end
    else (Err PersistenceFailure, bump (mutation_world m w)).
Proof.
  cbn zeta. by rewrite run_mutation_eq, checked_update_eq, mutation_world_db.
Qed.

Lemma mutation_world_console m w : console (mutation_world m w) = console w.
Proof. by destruct m. Qed.

(** X7. A mutation the engine performs touches only the rows of its table
    that carry the identifier: every row of another identifier is still in
    the table unchanged, the table has as many rows as before, the other
    tables and the console stay as they were, and the journal grows by
    exactly one statement.  No mutation creates or deletes a row. *)
Theorem mutation_touches_only_its_target (m : mutation) (id : string) (w : World) :
  performed (run_mutation env m id w) →
  let w' := (run_mutation env m id w).2 in
  length (rows (mutation_table m) (db w')) = length (rows (mutation_table m) (db w))
  ∧ (∀ r, r ∈ rows (mutation_table m) (db w) →
       ¬ where_eq "id" id r → r ∈ rows (mutation_table m) (db w'))
  ∧ (∀ t, t ≠ mutation_table m → rows t (db w') = rows t (db w))
  ∧ console w' = console w
  ∧ length (journal w') = S (length (journal w)).
Proof.
  intros Hp. cbn zeta. rewrite (run_mutation_performed env m id w Hp).
  set (w' := commit _ _ _ _).
  assert (Hsnd : (match found (mutation_table m) id (db w) with
     | [] => (Err (Error (not_found_message m)), w')
     | old :: _ => (Ok (merge (mutation_set env m w) old), w') end).2 = w').
  { by destruct (found _ _ _). }
  rewrite Hsnd. clear Hsnd. subst w'. cbn [db commit journal console].
  rewrite rows_with_rows, mutation_world_db, mutation_world_journal,
    mutation_world_console.
  split; [by rewrite length_fmap|]. split.
  { intros r Hin Hr. apply list_elem_of_fmap. exists r.
    by rewrite update_row_other. }
  split.
  { intros t Ht. by rewrite rows_with_rows_ne. }
  split; [done|]. rewrite length_app. cbn. lia.
Qed.

(** X8. An operation that throws has not changed the store: a creation
    that fails leaves the store, the journal and the console as they were,
    and a mutation that fails, with the not-found error or with a failure of
    the engine, leaves every table as it was. *)
Theorem failed_operation_leaves_store (w w' : World) (e : exn) :
  (∀ c input, run_creation env c input w = (Err e, w') → unchanged w w')
  ∧ (∀ m id, run_mutation env m id w = (Err e, w') → db w' = db w).
Proof.
  split.
  - intros c input. apply run_creation_err.
  - intros m id. rewrite run_mutation_cases. cbn zeta.
    destruct (outage env _).
    { intros [= _ <-]. cbn. apply mutation_world_db. }
    destruct (decide _).
    + destruct (found (mutation_table m) id (db w)) eqn:Hf; [|done].
      intros [= _ <-]. cbn [db commit].
      fold (found (mutation_table m) id (db w)) in Hf.
      rewrite update_row_miss by done.
      rewrite mutation_world_db. apply with_rows_same.
    + intros [= _ <-]. cbn. apply mutation_world_db.
Qed.

(** X9. With the engine out of reach, every read, authenticateUser, every
    mutation and every creation throws the engine's failure as it is: no
    lookup answers [undefined], no login answers [null], no mutation
    reports not-found, and the store stays as it was. *)
Theorem engine_failure_propagates (w : World) :
  (∀ n, outage env n = true) →
  (∀ l, run_lookup env l w = (Err PersistenceFailure, bump w))
  ∧ (∀ q, run_listing env q w = (Err PersistenceFailure, bump w))
  ∧ (∀ name password,
       authenticateUser env name password w = (Err PersistenceFailure, bump w))
  ∧ (∀ m id, (run_mutation env m id w).1 = Err PersistenceFailure
             ∧ db (run_mutation env m id w).2 = db w)
  ∧ (∀ c input,
       (c = CUser → ∃ p, input !! "password" = Some (VStr p)) →
       (run_creation env c input w).1 = Err PersistenceFailure
       ∧ db (run_creation env c input w).2 = db w).
Proof.
  intros Hdown. split; [|split; [|split; [|split]]].
  - intros l. by rewrite run_lookup_eq, Hdown.
  - intros q. by rewrite run_listing_eq, Hdown.
  - intros name password. by rewrite authenticateUser_eq, Hdown.
  - intros m id. rewrite run_mutation_cases. cbn zeta. rewrite Hdown.
    split; [done|]. cbn. apply mutation_world_db.
  - intros c input Hpw.
    destruct c; cbn [run_creation];
      unfold createUser, createLoanApplication, createDsaPartner, createLead,
        createContactQuery, mbind, M_bind, bcrypt_hash, db_insert;
      try (rewrite Hdown; by split).
    destruct (Hpw eq_refl) as [p ->]. cbn [tick bump]. rewrite Hdown. by split.
Qed.

End Frames.

(** ** Operations in sequence *)

Section Sequences.

Context `{Bcrypt} (env : Env).

(** A row the engine has accepted at the end of a table is the first, and
    only, row with its key in a unique column. *)
Lemma accepted_row_first t c (l : list Row) (r : Row) key :
  c ∈ unique_columns t →
  r !! c = Some (VStr key) →
  accepts t l (l ++ [r]) →
  head (filter (where_eq c key) (l ++ [r])) = Some r.
Proof.
  intros Hc Hr Hacc. unfold accepts in Hacc. rewrite Forall_forall in Hacc.
  specialize (Hacc _ Hc).
  rewrite (keys_snoc _ _ _ _ Hr) in Hacc by done.
  destruct Hacc as [Hsame|Hnd].
  - apply (f_equal length) in Hsame. rewrite length_app in Hsame.
    cbn in Hsame. lia.
  - apply NoDup_app in Hnd as (_ & Hdisj & _).
    rewrite filter_app, filter_where_eq_nil.
    + rewrite filter_cons, decide_True by done. done.
    + intros Hin. apply (Hdisj _ Hin). left.
Qed.

(** The rows an update leaves under a key it does not set. *)
Lemma filter_update_row set col key (l : list Row) :
  set !! col = None →
  filter (where_eq col key) (update_row set col key <$> l)
  = merge set <$> filter (where_eq col key) l.
Proof.
  intros Hset. induction l as [|r l IH]; [done|].
  cbn [fmap list_fmap]. rewrite !filter_cons.
  destruct (decide (where_eq col key r)) as [Hr|Hr].
  - rewrite update_row_hit by done.
    rewrite decide_True.
    + cbn [fmap list_fmap]. f_equal. apply IH.
    + unfold where_eq. by rewrite merge_lookup, Hset.
  - rewrite update_row_other by done. rewrite decide_False by done. apply IH.
Qed.

(** X10. A user createUser has stored is found again: with the engine in
    reach afterwards, getUser with the identifier of the returned user,
    getUserByUsername with its name and getUserByEmail with its email each
    return that very user. *)
Theorem createUser_then_lookup (insertUser : Row) (w : World) :
  performed (createUser env insertUser w) →
  (∃ p, insertUser !! "password" = Some (VStr p)) →
  outage env (tick (createUser env insertUser w).2) = false →
  ∃ u w1, createUser env insertUser w = (Ok (Some u), w1)
    ∧ ∀ l, lookup_table l = users →
           u !! lookup_column l = Some (VStr (lookup_key l)) →
           run_lookup env l w1 = (Ok (Some u), bump w1).
Proof.
  intros Hp [p Hpw] Hup.
  destruct (createUser_performed env _ _ _ Hpw Hp) as [Hacc Hrun].
  rewrite Hrun in Hup |- *. cbn [snd] in Hup.
  eexists _, _. split; [done|].
  intros l Ht Hkey. rewrite run_lookup_eq, Hup, Ht.
  cbn [db commit]. rewrite rows_with_rows.
  rewrite (accepted_row_first users); [done| |done|done].
  destruct l; cbn in *; try done; set_solver.
Qed.

(** X11. After updateUser has succeeded on a partial record that does not
    name the identifier, getUser with the same identifier returns the
    updated user (with the engine in reach). *)
Theorem updateUser_then_getUser
    (id : string) (updates : Row) (w : World) (old : Row) (rest : list Row) :
  found users id (db w) = old :: rest →
  updates !! "id" = None →
  performed (updateUser env id updates w) →
  outage env (tick (updateUser env id updates w).2) = false →
  ∃ r w', updateUser env id updates w = (Ok r, w')
    ∧ getUser env id w' = (Ok (Some r), bump w').
Proof.
  intros Hf Hid Hp Hup.
  change (updateUser env id updates w)
    with (run_mutation env (MUpdate EUser updates) id w) in *.
  pose proof (run_mutation_performed env _ _ _ Hp) as Hrun.
  cbn [mutation_table mutation_set mutation_world entity_table] in Hrun.
  rewrite Hf in Hrun. rewrite Hrun in Hup |- *. cbn [snd] in Hup.
  eexists _, _. split; [done|].
  change (getUser env id) with (run_lookup env (LUser id)).
  rewrite run_lookup_eq, Hup. cbn [lookup_table lookup_column lookup_key db commit].
  rewrite rows_with_rows, filter_update_row.
  - fold (found users id (db w)). by rewrite Hf.
  - by rewrite lookup_insert_ne.
Qed.

(** X12. Two updates of the same entity in a row compose field by field,
    the later winning: in the result of the second, a field is what the
    second partial record supplies, else what the first supplied, else what
    the entity held before; the update timestamp is the reading of the
    second.  (Neither record names the identifier.) *)
Theorem successive_updates_compose
    (e : entity) (id : string) (first second : Row) (w : World)
    (old : Row) (rest : list Row) :
  found (entity_table e) id (db w) = old :: rest →
  first !! "id" = None →
  performed (update_of env e id first w) →
  performed (update_of env e id second (update_of env e id first w).2) →
  ∃ w1 r2 w2,
    (update_of env e id first w).2 = w1
    ∧ update_of env e id second w1 = (Ok r2, w2)
    ∧ r2 ∈ rows (entity_table e) (db w2)
    ∧ r2 !! "updatedAt" = Some (VDate (clock env (tick w1)))
    ∧ (∀ k, k ≠ "updatedAt" →
         r2 !! k = match second !! k with
                   | Some v => Some v
                   | None => match first !! k with
                             | Some v => Some v
                             | None => old !! k
                             end
                   end).
Proof.
  intros Hf Hid Hp1 Hp2. rewrite !update_of_eq in *.
  pose proof (run_mutation_performed env _ _ _ Hp1) as Hrun1.
  cbn [mutation_table mutation_set mutation_world] in Hrun1.
  rewrite Hf in Hrun1. rewrite Hrun1 in Hp2 |- *. cbn [snd] in Hp2 |- *.
  set (set1 := <["updatedAt" := VDate (clock env (tick w))]> first) in *.
  set (w1 := commit _ _ _ _) in *.
  assert (Hf1 : found (entity_table e) id (db w1)
                = merge set1 old :: (merge set1 <$> rest)).
  { unfold found, w1. cbn [db commit]. rewrite rows_with_rows.
    rewrite filter_update_row.
    - fold (found (entity_table e) id (db w)). by rewrite Hf.
    - unfold set1. by rewrite lookup_insert_ne. }
  destruct (run_mutation_hit env _ _ _ _ _ Hp2 Hf1) as (w2 & Hrun2 & Hin & _).
  exists w1, (merge (mutation_set env (MUpdate e second) w1) (merge set1 old)), w2.
  split; [done|]. split; [exact Hrun2|].
  split; [exact Hin|]. cbn [mutation_set]. split.
  - by rewrite merge_lookup, lookup_insert_eq.
  - intros k Hk. rewrite merge_lookup, lookup_insert_ne by done.
    destruct (second !! k); [done|].
    unfold set1. by rewrite merge_lookup, lookup_insert_ne.
Qed.

(** X13. assignLeadToDsa changes nothing of the lead but the partner
    reference and the two timestamps; after it, with the engine in reach,
    getLeadsByDsa of the new partner contains the lead returned, and
    getLeadsByDsa of any other partner contains no lead of that
    identifier: a reassignment takes the lead away from the former
    partner. *)
Theorem assignLeadToDsa_then_getLeadsByDsa
    (leadId dsaId : string) (w : World) (old : Row) (rest : list Row) :
  found leads leadId (db w) = old :: rest →
  outage env (S (S (tick w))) = false →
  outage env (S (S (S (tick w)))) = false →
  ∃ r w', assignLeadToDsa env leadId dsaId w = (Ok r, w')
    ∧ (∀ k, k ≠ "assignedDsaId" → k ≠ "assignedAt" → k ≠ "updatedAt" →
         r !! k = old !! k)
    ∧ (∃ l, getLeadsByDsa env dsaId w' = (Ok l, bump w') ∧ r ∈ l)
    ∧ (∀ other, other ≠ dsaId →
         ∃ l, getLeadsByDsa env other w' = (Ok l, bump w')
            ∧ ∀ r', r' ∈ l → ¬ where_eq "id" leadId r').
Proof.
  intros Hf Hup Hup'.
  assert (Hp : performed (run_mutation env (MAssignLeadToDsa dsaId) leadId w)).
  { apply run_mutation_accepted; [done|]. apply assignment_accepted. }
  pose proof (run_mutation_performed env _ _ _ Hp) as Hrun.
  cbn [run_mutation mutation_table mutation_world] in Hrun.
  rewrite Hf in Hrun. rewrite Hrun.
  set (set := mutation_set env (MAssignLeadToDsa dsaId) w) in *.
  assert (Hdsa : ∀ r0 : Row, merge set r0 !! "assignedDsaId" = Some (VStr dsaId)).
  { intros r0. by rewrite merge_lookup. }
  eexists _, _. split; [done|]. split; [|split].
  - intros k H1 H2 H3. rewrite merge_lookup. unfold set. cbn [mutation_set].
    rewrite !lookup_insert_ne by done. by rewrite lookup_singleton_ne.
  - change (getLeadsByDsa env dsaId) with (run_listing env (QLeadsByDsa dsaId)).
    rewrite run_listing_eq. cbn [tick commit bump]. rewrite Hup'.
    eexists. split; [done|]. apply list_elem_of_filter.
    split; [apply Hdsa|]. cbn [listing_table db commit].
    rewrite rows_with_rows. by eapply merged_stored.
  - intros other Hne.
    change (getLeadsByDsa env other) with (run_listing env (QLeadsByDsa other)).
    rewrite run_listing_eq. cbn [tick commit bump]. rewrite Hup'.
    eexists. split; [done|]. intros r' Hin Hid.
    apply list_elem_of_filter in Hin as [Hsel Hin].
    cbn [listing_table db commit] in Hin. rewrite rows_with_rows in Hin.
    apply list_elem_of_fmap in Hin as (r0 & -> & Hin).
    destruct (decide (where_eq "id" leadId r0)) as [Hr0|Hr0].
    + rewrite update_row_hit in Hsel by done. cbn in Hsel.
      unfold where_eq in Hsel. rewrite Hdsa in Hsel. by simplify_eq.
    + by rewrite update_row_other in Hid.
Qed.

End Sequences.

(** ** The bootstrap, further *)

Section BootstrapFurther.

Context `{Bcrypt} (env : Env).

(** What the bootstrap does, case by case. *)
Lemma initializeDefaultUsers_cases w :
  initializeDefaultUsers env w =
    if outage env (tick w)
    then console_error "Error initializing default users:" (bump w)
    else match admins (db w) with
         | _ :: _ => (Ok (), bump w)
         | [] =>
             let values :=
               default_admin (bcrypt_digest "admin123" 10 (salt env (S (tick w)))) in
             let r := values ∪ column_defaults env users (S (S (tick w))) in
             if outage env (S (S (tick w)))
             then console_error "Error initializing default users:"
                    (bump (bump (bump w)))
             else if decide (accepts users (rows users (db w))
                               (rows users (db w) ++ [r]))
             then console_log "Default admin user created"
                    (commit users (rows users (db w) ++ [r])
                       (SqlInsert users values) (bump (bump w)))
             else console_error "Error initializing default users:"
                    (bump (bump (bump w)))
         end.
Proof.
  unfold initializeDefaultUsers, try_catch, mbind, M_bind, db_select.
  cbn beta. destruct (outage env (tick w)); [done|].
  cbn [limit_rows]. fold (admins (db w)).
  destruct (admins (db w)) as [|a rest]; [|done].
  cbn [take length]. rewrite decide_True by done.
  unfold bcrypt_hash, db_insert. cbn [tick bump db]. cbn zeta.
  destruct (outage env (S (S (tick w)))); [done|].
  unfold default_admin. by destruct (decide _).
Qed.

Lemma filter_nil_not_key c name (l : list Row) :
  filter (where_eq c name) l = [] → VStr name ∉ keys c l.
Proof.
  induction l as [|r l IH]; [intros _ Hin; by apply elem_of_nil in Hin|].
  rewrite filter_cons. destruct (decide (where_eq c name r)) as [Hr|Hr]; [done|].
  intros Hl Hin. unfold keys in Hin. cbn in Hin.
  destruct (key_of c r) as [v|] eqn:Hv.
  - apply elem_of_cons in Hin as [<-|Hin]; [|by apply IH].
    apply Hr. unfold where_eq. unfold key_of in Hv.
    by destruct (r !! c) as [[]|].
  - by apply IH.
Qed.

(** The bootstrap does not fail when the engine is in reach at its check
    and, should there be no admin, at its insert, with the email of the
    default admin and the identifier the engine generates both free. *)
Lemma bootstrap_without_failure w :
  consistent (db w) →
  outage env (tick w) = false →
  outage env (S (S (tick w))) = false →
  VStr "admin@jsmf.com" ∉ keys "email" (rows users (db w)) →
  VStr (uuid env (S (S (tick w)))) ∉ keys "id" (rows users (db w)) →
  bootstrap_failures (initializeDefaultUsers env w).2 = bootstrap_failures w.
Proof.
  intros Hw Hup Hup' Hemail Hid. rewrite initializeDefaultUsers_cases, Hup.
  destruct (admins (db w)) as [|a rest] eqn:Hadmins; [|done].
  cbn zeta. rewrite Hup'.
  set (h := bcrypt_digest "admin123" 10 (salt env (S (tick w)))).
  set (r := default_admin h ∪ column_defaults env users (S (S (tick w)))).
  assert (Hlook : ∀ k v, default_admin h !! k = Some v → r !! k = Some v).
  { intros k v Hk. by apply lookup_union_Some_l. }
  assert (Hrid : r !! "id" = Some (VStr (uuid env (S (S (tick w)))))).
  { unfold r. by rewrite lookup_union_r. }
  rewrite decide_True.
  { unfold console_log. cbn [snd]. unfold bootstrap_failures. cbn [console commit bump].
    rewrite filter_app, filter_cons, decide_False by done.
    by rewrite filter_nil, app_nil_r. }
  apply Forall_forall. intros c Hc. right.
  assert (Hfresh : ∀ v, r !! c = Some v → v ≠ VNull →
            v ∉ keys c (rows users (db w)) →
            NoDup (keys c (rows users (db w) ++ [r]))).
  { intros v Hv Hnull Hnot. rewrite (keys_snoc _ _ _ _ Hv Hnull).
    apply NoDup_app. split; [by apply Hw|]. split; [|apply NoDup_singleton].
    intros x Hx Hx'. apply list_elem_of_singleton in Hx' as ->. done. }
  cbn in Hc. repeat (apply elem_of_cons in Hc as [->|Hc]).
  - by apply (Hfresh _ Hrid).
  - apply (Hfresh (VStr "admin")); [by apply Hlook|done|].
    by apply filter_nil_not_key.
  - apply (Hfresh (VStr "admin@jsmf.com")); [by apply Hlook|done|done].
  - by apply elem_of_nil in Hc.
Qed.

(** X14. When a user called "admin" exists, the bootstrap writes nothing:
    the store and the journal stay as they were, so a restart never resets
    the admin's record or password. *)
Theorem bootstrap_leaves_existing_admin (w : World) :
  admins (db w) ≠ [] →
  db (initializeDefaultUsers env w).2 = db w
  ∧ journal (initializeDefaultUsers env w).2 = journal w.
Proof.
  intros Hsome. rewrite initializeDefaultUsers_cases.
  destruct (outage env (tick w)); [done|].
  by destruct (admins (db w)).
Qed.

Lemma app_singleton_ne {A} (l : list A) x : l ≠ l ++ [x].
Proof.
  intros Heq. apply (f_equal length) in Heq. rewrite length_app in Heq.
  cbn in Heq. lia.
Qed.

(** X15. When the bootstrap reports that it created the default admin,
    that admin can log in: with the engine in reach, authenticateUser with
    "admin" and "admin123" returns the stored user, whose role is "admin"
    and who is active, and the store holds the hash of the password, with
    the username "admin" borne by that user alone. *)
Theorem bootstrap_admin_can_log_in (w : World) :
  console (initializeDefaultUsers env w).2
    = console w ++ ["Default admin user created"] →
  outage env (tick (initializeDefaultUsers env w).2) = false →
  ∃ u w', initializeDefaultUsers env w = (Ok (), w')
    ∧ admins (db w') = [u]
    ∧ u !! "role" = Some (VStr "admin")
    ∧ u !! "isActive" = Some (VBool true)
    ∧ u !! "password"
      = Some (VStr (bcrypt_digest "admin123" 10 (salt env (S (tick w)))))
    ∧ authenticateUser env "admin" "admin123" w' = (Ok (Some u), bump w').
Proof.
  rewrite initializeDefaultUsers_cases.
  destruct (outage env (tick w)).
  { cbn. intros Heq. apply app_inv_head in Heq. discriminate Heq. }
  destruct (admins (db w)) as [|a rest] eqn:Hadmins.
  2:{ cbn. intros Heq. by apply app_singleton_ne in Heq. }
  cbn zeta. destruct (outage env (S (S (tick w)))).
  { cbn. intros Heq. apply app_inv_head in Heq. discriminate Heq. }
  destruct (decide _) as [Hacc|].
  2:{ cbn. intros Heq. apply app_inv_head in Heq. discriminate Heq. }
  unfold console_log. cbn [snd tick db journal console commit bump].
  intros _ Hup.
  set (h := bcrypt_digest "admin123" 10 (salt env (S (tick w)))) in *.
  set (u := default_admin h ∪ column_defaults env users (S (S (tick w)))) in *.
  assert (Hlook : ∀ k v, default_admin h !! k = Some v → u !! k = Some v).
  { intros k v Hk. by apply lookup_union_Some_l. }
  eexists u, _. split; [done|].
  assert (Hadm : admins (with_rows users (rows users (db w) ++ [u]) (db w)) = [u]).
  { unfold admins in *. rewrite rows_with_rows, filter_app, Hadmins.
    rewrite filter_cons, decide_True; [done|]. by apply Hlook. }
  split; [exact Hadm|]. split; [by apply Hlook|]. split; [by apply Hlook|].
  split; [by apply Hlook|].
  rewrite authenticateUser_eq. cbn [tick db]. rewrite Hup.
  cbn [bump tick db journal console].
  unfold user_named. fold (admins (with_rows users (rows users (db w) ++ [u]) (db w))).
  rewrite Hadm. cbn [head].
  rewrite (Hlook "password" (VStr h)) by done.
  unfold h. by rewrite bcrypt_verify_digest.
Qed.

End BootstrapFurther.

(** ** The further theorems at concrete inputs *)

(** X1 at work: alice is found by her email. *)
Lemma lookup_first_match_or_absent_witness :
  outage env0 (tick world1) = false
  ∧ run_lookup env0 (LUserByEmail "alice@example.com") world1
    = (Ok (Some stored_alice), bump world1)
  ∧ ∃ before after, rows users (db world1) = before ++ stored_alice :: after.
Proof.
  split; [reflexivity|].
  destruct (lookup_first_match_or_absent env0 (LUserByEmail "alice@example.com")
              world1 eq_refl) as (o & Hrun & _ & Hsome).
  assert (Ho : o = Some stored_alice).
  { assert (Hc : run_lookup env0 (LUserByEmail "alice@example.com") world1
                 = (Ok (Some stored_alice), bump world1)) by by_running.
    rewrite Hc in Hrun. by injection Hrun as <-. }
  subst o. split; [exact Hrun|].
  destruct (Hsome _ eq_refl) as (before & after & Hrows & _).
  by exists before, after.
Defined.

(** X2 at work: the leads of "partner-42" in a store where only "lead-1"
    is assigned. *)
Lemma listing_exact_witness :
  outage env0 (tick world2) = false
  ∧ ∃ l, run_listing env0 (QLeadsByDsa "partner-42") world2 = (Ok l, bump world2)
       ∧ assigned_lead1 ∈ l ∧ lead2 ∉ l.
Proof.
  split; [reflexivity|].
  destruct (listing_exact env0 (QLeadsByDsa "partner-42") world2 eq_refl)
    as (l & Hrun & _ & Hiff & _).
  exists l. split; [exact Hrun|]. split.
  - apply Hiff. split; [left|]. by_running.
  - intros Hin. apply Hiff in Hin as [_ Hsel]. vm_compute in Hsel.
    discriminate Hsel.
Defined.

(** X4 at work: a loan application is created in the sample store. *)
Lemma creation_appends_one_row_witness :
  @run_creation demo_bcrypt env0 CLoanApplication loan_input world1
    = (Ok (Some created_loan),
       (@run_creation demo_bcrypt env0 CLoanApplication loan_input world1).2)
  ∧ ∃ r, Some created_loan = Some r
       ∧ rows loanApplications
           (db (@run_creation demo_bcrypt env0 CLoanApplication loan_input world1).2)
         = rows loanApplications (db world1) ++ [r]
       ∧ r !! "amount" = Some (VNum 500000).
Proof.
  assert (Hrun : @run_creation demo_bcrypt env0 CLoanApplication loan_input world1
    = (Ok (Some created_loan),
       (@run_creation demo_bcrypt env0 CLoanApplication loan_input world1).2))
    by by_running.
  split; [exact Hrun|].
  destruct (@creation_appends_one_row demo_bcrypt env0 _ _ _ _ _ Hrun)
    as (r & values & Ho & Hrows & _ & _ & _ & Hkeep).
  exists r. split; [exact Ho|]. split; [exact Hrows|].
  apply Hkeep; [|by_running].
  cbn. intros Hin. apply list_elem_of_singleton in Hin. discriminate Hin.
Defined.

(** X6 at work: the input of the loan application says "approved". *)
Lemma creation_initial_status_witness :
  createLoanApplication env0 loan_input world1
    = (Ok (Some created_loan), (createLoanApplication env0 loan_input world1).2)
  ∧ loan_input !! "status" = Some (VStr "approved")
  ∧ ∃ r, Some created_loan = Some r ∧ r !! "status" = Some (VStr "pending").
Proof.
  assert (Hrun : createLoanApplication env0 loan_input world1
    = (Ok (Some created_loan), (createLoanApplication env0 loan_input world1).2))
    by by_running.
  split; [exact Hrun|]. split; [by_running|].
  exact (proj1 (@creation_initial_status demo_bcrypt env0 loan_input world1 _ _) Hrun).
Defined.

(** X5 at work: bob is created with an empty role and the activity flag
    off. *)
Lemma createUser_forced_fields_witness :
  @createUser demo_bcrypt env0 bob world0
    = (Ok (Some stored_bob), (@createUser demo_bcrypt env0 bob world0).2)
  ∧ ∃ u, Some stored_bob = Some u
       ∧ u !! "password" = Some (VStr "$2b$salt$pw")
       ∧ u !! "isActive" = Some (VBool true)
       ∧ u !! "role" = Some (VStr "user").
Proof.
  assert (Hrun : @createUser demo_bcrypt env0 bob world0
    = (Ok (Some stored_bob), (@createUser demo_bcrypt env0 bob world0).2))
    by by_running.
  split; [exact Hrun|].
  destruct (@createUser_forced_fields demo_bcrypt env0 _ _ _ _ Hrun)
    as (u & p & values & Ho & Hp & Hpw & _ & _ & Hactive & _ & Hrole).
  exists u. split; [exact Ho|].
  assert (p = "pw") as ->.
  { assert (Hb : bob !! "password" = Some (VStr "pw")) by by_running.
    rewrite Hb in Hp. by injection Hp as <-. }
  split; [exact Hpw|]. split; [exact Hactive|]. apply Hrole. by_running.
Defined.

(** X7 at work: assigning "lead-1" leaves "lead-2" as it was. *)
Lemma mutation_touches_only_its_target_witness :
  performed (run_mutation env0 (MAssignLeadToDsa "partner-42") "lead-1" world1)
  ∧ lead2 ∈ rows leads
      (db (run_mutation env0 (MAssignLeadToDsa "partner-42") "lead-1" world1).2)
  ∧ length (rows leads
      (db (run_mutation env0 (MAssignLeadToDsa "partner-42") "lead-1" world1).2))
    = 2%nat.
Proof.
  assert (Hp : performed (run_mutation env0 (MAssignLeadToDsa "partner-42")
                            "lead-1" world1)) by performed_by_running.
  split; [exact Hp|].
  destruct (mutation_touches_only_its_target env0 _ _ _ Hp) as (Hlen & Hrows & _).
  split.
  - apply Hrows; [right; left|].
    intros Hid. vm_compute in Hid. discriminate Hid.
  - exact Hlen.
Defined.

(** X8 at work: an update of a lead nobody has, and a second user called
    alice. *)
Lemma failed_operation_leaves_store_witness :
  run_mutation env0 (MUpdate ELead ∅) "lead-9" world1
    = (Err (Error "Lead not found"),
       (run_mutation env0 (MUpdate ELead ∅) "lead-9" world1).2)
  ∧ db (run_mutation env0 (MUpdate ELead ∅) "lead-9" world1).2 = db world1
  ∧ @run_creation demo_bcrypt env0 CUser alice world1
    = (Err PersistenceFailure, (@run_creation demo_bcrypt env0 CUser alice world1).2)
  ∧ unchanged world1 (@run_creation demo_bcrypt env0 CUser alice world1).2.
Proof.
  assert (Hm : run_mutation env0 (MUpdate ELead ∅) "lead-9" world1
    = (Err (Error "Lead not found"),
       (run_mutation env0 (MUpdate ELead ∅) "lead-9" world1).2)) by by_running.
  assert (Hc : @run_creation demo_bcrypt env0 CUser alice world1
    = (Err PersistenceFailure,
       (@run_creation demo_bcrypt env0 CUser alice world1).2)) by by_running.
  split; [exact Hm|]. split.
  - exact (proj2 (@failed_operation_leaves_store demo_bcrypt env0 world1 _ _) _ _ Hm).
  - split; [exact Hc|].
    exact (proj1 (@failed_operation_leaves_store demo_bcrypt env0 world1 _ _) _ _ Hc).
Defined.

(** X9 at work: a login while the engine is out of reach. *)
Lemma engine_failure_propagates_witness :
  (∀ n, outage env_down n = true)
  ∧ @authenticateUser demo_bcrypt env_down "alice" "secret" world1
    = (Err PersistenceFailure, bump world1).
Proof.
  assert (Hdown : ∀ n, outage env_down n = true) by (intros n; reflexivity).
  split; [exact Hdown|].
  destruct (@engine_failure_propagates demo_bcrypt env_down world1 Hdown)
    as (_ & _ & Hauth & _).
  apply Hauth.
Defined.

(** X10 at work: alice is created in the empty store and found by email. *)
Lemma createUser_then_lookup_witness :
  performed (@createUser demo_bcrypt env0 alice world0)
  ∧ (∃ p, alice !! "password" = Some (VStr p))
  ∧ outage env0 (tick (@createUser demo_bcrypt env0 alice world0).2) = false
  ∧ ∃ u w1, @createUser demo_bcrypt env0 alice world0 = (Ok (Some u), w1)
      ∧ run_lookup env0 (LUserByEmail "alice@example.com") w1
        = (Ok (Some u), bump w1).
Proof.
  assert (Hp : performed (@createUser demo_bcrypt env0 alice world0))
    by performed_by_running.
  assert (Hpw : ∃ p, alice !! "password" = Some (VStr p)).
  { exists "secret". by_running. }
  split; [exact Hp|]. split; [exact Hpw|]. split; [reflexivity|].
  destruct (@createUser_then_lookup demo_bcrypt env0 alice world0 Hp Hpw eq_refl)
    as (u & w1 & Hrun & Hlook).
  exists u, w1. split; [exact Hrun|].
  apply Hlook; [reflexivity|].
  replace u with (returned_row (@createUser demo_bcrypt env0 alice world0))
    by (by rewrite Hrun).
  by_running.
Defined.

(** X11 at work: alice's city is updated and she is looked up again. *)
Lemma updateUser_then_getUser_witness :
  found users "user-1" (db world1) = [stored_alice]
  ∧ ({[ "city" := VStr "Indore" ]} : Row) !! "id" = None
  ∧ performed (updateUser env0 "user-1" {[ "city" := VStr "Indore" ]} world1)
  ∧ outage env0 (tick (updateUser env0 "user-1" {[ "city" := VStr "Indore" ]} world1).2)
    = false
  ∧ ∃ r w', updateUser env0 "user-1" {[ "city" := VStr "Indore" ]} world1 = (Ok r, w')
      ∧ getUser env0 "user-1" w' = (Ok (Some r), bump w').
Proof.
  assert (Hf : found users "user-1" (db world1) = [stored_alice]) by by_running.
  assert (Hid : ({[ "city" := VStr "Indore" ]} : Row) !! "id" = None) by by_running.
  assert (Hp : performed (updateUser env0 "user-1" {[ "city" := VStr "Indore" ]} world1))
    by performed_by_running.
  do 3 (split; [done|]). split; [reflexivity|].
  exact (updateUser_then_getUser env0 _ _ _ _ _ Hf Hid Hp eq_refl).
Defined.

(** X12 at work: "lead-1" is contacted, then renamed. *)
Lemma successive_updates_compose_witness :
  found (entity_table ELead) "lead-1" (db world1) = [lead1]
  ∧ ({[ "status" := VStr "contacted" ]} : Row) !! "id" = None
  ∧ performed (update_of env0 ELead "lead-1" {[ "status" := VStr "contacted" ]} world1)
  ∧ performed (update_of env0 ELead "lead-1" {[ "name" := VStr "Ravi K" ]}
      (update_of env0 ELead "lead-1" {[ "status" := VStr "contacted" ]} world1).2)
  ∧ ∃ w1 r2 w2,
      update_of env0 ELead "lead-1" {[ "name" := VStr "Ravi K" ]} w1 = (Ok r2, w2)
      ∧ r2 !! "name" = Some (VStr "Ravi K")
      ∧ r2 !! "status" = Some (VStr "contacted")
      ∧ r2 !! "source" = Some (VStr "website").
Proof.
  assert (Hf : found (entity_table ELead) "lead-1" (db world1) = [lead1])
    by by_running.
  assert (Hid : ({[ "status" := VStr "contacted" ]} : Row) !! "id" = None)
    by by_running.
  assert (Hp1 : performed (update_of env0 ELead "lead-1"
                  {[ "status" := VStr "contacted" ]} world1))
    by performed_by_running.
  assert (Hp2 : performed (update_of env0 ELead "lead-1" {[ "name" := VStr "Ravi K" ]}
      (update_of env0 ELead "lead-1" {[ "status" := VStr "contacted" ]} world1).2))
    by performed_by_running.
  do 4 (split; [done|]).
  destruct (successive_updates_compose env0 _ _ _ _ _ _ _ Hf Hid Hp1 Hp2)
    as (w1 & r2 & w2 & _ & Hrun & _ & _ & Hfields).
  exists w1, r2, w2. split; [exact Hrun|].
  split; [|split]; rewrite Hfields by discriminate; by_running.
Defined.

(** X13 at work: "lead-1" goes to "partner-42" and is listed there, not
    under "partner-7". *)
Lemma assignLeadToDsa_then_getLeadsByDsa_witness :
  found leads "lead-1" (db world1) = [lead1]
  ∧ outage env0 (S (S (tick world1))) = false
  ∧ outage env0 (S (S (S (tick world1)))) = false
  ∧ ∃ r w', assignLeadToDsa env0 "lead-1" "partner-42" world1 = (Ok r, w')
      ∧ r !! "status" = lead1 !! "status"
      ∧ (∃ l, getLeadsByDsa env0 "partner-42" w' = (Ok l, bump w') ∧ r ∈ l)
      ∧ (∃ l, getLeadsByDsa env0 "partner-7" w' = (Ok l, bump w')
            ∧ ∀ r', r' ∈ l → ¬ where_eq "id" "lead-1" r').
Proof.
  assert (Hf : found leads "lead-1" (db world1) = [lead1]) by by_running.
  split; [exact Hf|]. split; [reflexivity|]. split; [reflexivity|].
  destruct (assignLeadToDsa_then_getLeadsByDsa env0 "lead-1" "partner-42" world1
              _ _ Hf eq_refl eq_refl) as (r & w' & Hrun & Hkeep & Hin & Hout).
  exists r, w'. split; [exact Hrun|]. split; [|split; [exact Hin|]].
  - apply Hkeep; discriminate.
  - apply Hout. discriminate.
Defined.

(** X14 at work: a second bootstrap of the empty store. *)
Lemma bootstrap_leaves_existing_admin_witness :
  admins (db world_bootstrapped) ≠ []
  ∧ db (@initializeDefaultUsers demo_bcrypt env0 world_bootstrapped).2
    = db world_bootstrapped.
Proof.
  assert (Hsome : admins (db world_bootstrapped) ≠ []).
  { assert (Hlen : length (admins (db world_bootstrapped)) = 1%nat) by by_running.
    intros Hnil. rewrite Hnil in Hlen. discriminate Hlen. }
  split; [exact Hsome|].
  exact (proj1 (@bootstrap_leaves_existing_admin demo_bcrypt env0 _ Hsome)).
Defined.

(** X15 at work: the first bootstrap of the empty store. *)
Lemma bootstrap_admin_can_log_in_witness :
  console (@initializeDefaultUsers demo_bcrypt env0 world0).2
    = console world0 ++ ["Default admin user created"]
  ∧ outage env0 (tick (@initializeDefaultUsers demo_bcrypt env0 world0).2) = false
  ∧ ∃ u w', @authenticateUser demo_bcrypt env0 "admin" "admin123" w'
            = (Ok (Some u), bump w')
      ∧ u !! "role" = Some (VStr "admin").
Proof.
  assert (Hlog : console (@initializeDefaultUsers demo_bcrypt env0 world0).2
                 = console world0 ++ ["Default admin user created"]) by by_running.
  split; [exact Hlog|]. split; [reflexivity|].
  destruct (@bootstrap_admin_can_log_in demo_bcrypt env0 world0 Hlog eq_refl)
    as (u & w' & _ & _ & Hrole & _ & _ & Hauth).
  exists u, w'. split; [exact Hauth|exact Hrole].
Defined.
